(** * DDPEC: parametric-EQ state store, profile codec and filter math

    A shallow embedding of [src/fn.ts], [src/importExport.ts] and the
    DSP core of [src/peq.ts], followed by the properties of the
    specification that were checked against it.

    Modelling conventions.
    - A JavaScript number is a [num]: a real number, or one of the three
      IEEE special values NaN, +Infinity, -Infinity.  Finite arithmetic is
      exact (no rounding, no overflow) and zero carries no sign, so a
      quotient by zero takes its sign from the dividend alone.
    - A JavaScript string is a [string] of 8-bit code units.
    - Array positions and the integers read by [parseInt] are in [Z].
    - Runtime data (bands, profiles, parsed JSON) is a [value]; objects keep
      their properties in insertion order.
    - A function that can throw returns a [completion].
    - DOM, logging, HID transport and rendering calls are left out; they do
      not touch the EQ state or the global gain. *)

From Stdlib Require Import Reals Lra Lia ZArith List Bool Ascii String.
From Stdlib Require Import Psatz Permutation.
Import ListNotations.

Set Implicit Arguments.

Local Open Scope R_scope.

(** ** JavaScript numbers *)

Module JsNum.

Inductive num : Type :=
| NaN : num
| PInf : num
| NInf : num
| Fin (r : R) : num.

Definition of_Z (z : Z) : num := Fin (IZR z).


(** Sign of a real: used for the special-value rules of [*] and [/]. *)
Inductive sign : Type := Neg | Zer | Pos.

Definition sgn (r : R) : sign :=
  if Req_dec_T r 0 then Zer else if Rlt_dec 0 r then Pos else Neg.

Definition inf_of (s : sign) : num :=
  match s with Pos => PInf | Neg => NInf | Zer => NaN end.

Definition sign_flip (s : sign) : sign :=
  match s with Pos => Neg | Neg => Pos | Zer => Zer end.

Definition neg (x : num) : num :=
  match x with
  | NaN => NaN
  | PInf => NInf
  | NInf => PInf
  | Fin r => Fin (- r)
  end.

Definition add (x y : num) : num :=
  match x, y with
  | NaN, _ | _, NaN => NaN
  | PInf, NInf | NInf, PInf => NaN
  | PInf, _ | _, PInf => PInf
  | NInf, _ | _, NInf => NInf
  | Fin a, Fin b => Fin (a + b)
  end.

Definition sub (x y : num) : num := add x (neg y).

Definition mul (x y : num) : num :=
  match x, y with
  | NaN, _ | _, NaN => NaN
  | PInf, PInf | NInf, NInf => PInf
  | PInf, NInf | NInf, PInf => NInf
  | PInf, Fin b | Fin b, PInf => inf_of (sgn b)
  | NInf, Fin b | Fin b, NInf => inf_of (sign_flip (sgn b))
  | Fin a, Fin b => Fin (a * b)
  end.

(** [x / y].  A finite quotient by zero is NaN for a zero dividend and an
    infinity of the dividend's sign otherwise. *)
Definition div (x y : num) : num :=
  match x, y with
  | NaN, _ | _, NaN => NaN
  | (PInf | NInf), (PInf | NInf) => NaN
  | PInf, Fin b => if Rlt_dec b 0 then NInf else PInf
  | NInf, Fin b => if Rlt_dec b 0 then PInf else NInf
  | Fin _, (PInf | NInf) => Fin 0
  | Fin a, Fin b =>
      if Req_dec_T b 0 then inf_of (sgn a) else Fin (a / b)
  end.

(** ToBoolean on a number: zero and NaN are falsy. *)
Definition truthy (x : num) : bool :=
  match x with
  | NaN => false
  | PInf | NInf => true
  | Fin r => if Req_dec_T r 0 then false else true
  end.

(** The [Math] object, on the idealised numbers. *)
Definition Math_PI : num := Fin PI.

Definition Math_sin (x : num) : num :=
  match x with Fin r => Fin (sin r) | _ => NaN end.

Definition Math_cos (x : num) : num :=
  match x with Fin r => Fin (cos r) | _ => NaN end.

Definition Math_sqrt (x : num) : num :=
  match x with
  | NaN | NInf => NaN
  | PInf => PInf
  | Fin r => if Rlt_dec r 0 then NaN else Fin (sqrt r)
  end.

Definition Math_log10 (x : num) : num :=
  match x with
  | NaN | NInf => NaN
  | PInf => PInf
  | Fin r =>
      if Rlt_dec r 0 then NaN
      else if Req_dec_T r 0 then NInf
      else Fin (ln r / ln 10)
  end.

(** [Math.pow], following Number::exponentiate case by case. *)
Definition is_integer (r : R) : bool :=
  if Req_dec_T r (IZR (Int_part r)) then true else false.

Definition is_odd_integer (r : R) : bool :=
  is_integer r && Z.odd (Int_part r).

Definition positive (x : num) : bool :=
  match x with
  | PInf => true
  | Fin r => if Rlt_dec 0 r then true else false
  | _ => false
  end.

Definition Math_pow (base exponent : num) : num :=
  match exponent with
  | NaN => NaN
  | Fin e =>
      if Req_dec_T e 0 then Fin 1
      else match base with
           | NaN => NaN
           | PInf => if Rlt_dec 0 e then PInf else Fin 0
           | NInf =>
               if Rlt_dec 0 e
               then (if is_odd_integer e then NInf else PInf)
               else Fin 0
           | Fin b =>
               if Req_dec_T b 0 then (if Rlt_dec 0 e then Fin 0 else PInf)
               else if Rlt_dec 0 b then Fin (Rpower b e)
               else if is_integer e then Fin (powerRZ b (Int_part e))
               else NaN
           end
  | PInf | NInf =>
      match base with
      | NaN => NaN
      | PInf => if positive exponent then PInf else Fin 0
      | NInf => if positive exponent then PInf else Fin 0
      | Fin b =>
          if Req_dec_T (Rabs b) 1 then NaN
          else if Rlt_dec 1 (Rabs b)
               then (if positive exponent then PInf else Fin 0)
               else (if positive exponent then Fin 0 else PInf)
      end
  end.

(** [Math.max] and [Math.min] of two arguments, and [Math.round] (the
    nearest integer, a tie going up). *)
Definition Math_max (x y : num) : num :=
  match x, y with
  | NaN, _ | _, NaN => NaN
  | PInf, _ | _, PInf => PInf
  | NInf, z | z, NInf => z
  | Fin a, Fin b => Fin (Rmax a b)
  end.

Definition Math_min (x y : num) : num :=
  match x, y with
  | NaN, _ | _, NaN => NaN
  | NInf, _ | _, NInf => NInf
  | PInf, z | z, PInf => z
  | Fin a, Fin b => Fin (Rmin a b)
  end.

Definition Math_round (x : num) : num :=
  match x with
  | Fin r => Fin (IZR (Int_part (r + 1 / 2)))
  | _ => x
  end.

(** [x <= y]; false as soon as one side is NaN. *)
Definition leb (x y : num) : bool :=
  match x, y with
  | NaN, _ | _, NaN => false
  | NInf, _ | _, PInf => true
  | PInf, _ | _, NInf => false
  | Fin a, Fin b => if Rle_dec a b then true else false
  end.

(** [x < y]; false as soon as one side is NaN. *)
Definition ltb (x y : num) : bool :=
  match x, y with
  | NaN, _ | _, NaN => false
  | PInf, _ | _, NInf => false
  | NInf, _ | _, PInf => true
  | Fin a, Fin b => if Rlt_dec a b then true else false
  end.

End JsNum.

Export JsNum.

(** ** JavaScript strings *)

Module JsString.

Local Open Scope char_scope.
Local Open Scope string_scope.

Definition chars (s : string) : list ascii := list_ascii_of_string s.
Definition str (l : list ascii) : string := string_of_list_ascii l.

Definition code (c : ascii) : nat := nat_of_ascii c.

(** WhiteSpace and LineTerminator code units below 256: TAB, LF, VT, FF, CR,
    SP and NBSP.  The same set is [\s] in a regular expression. *)
Definition is_space (c : ascii) : bool :=
  let n := code c in
  ((9 <=? n) && (n <=? 13) || (n =? 32) || (n =? 160))%nat.

Definition is_digit (c : ascii) : bool :=
  let n := code c in ((48 <=? n) && (n <=? 57))%nat.

Definition is_upper (c : ascii) : bool :=
  let n := code c in ((65 <=? n) && (n <=? 90))%nat.

Definition is_lower (c : ascii) : bool :=
  let n := code c in ((97 <=? n) && (n <=? 122))%nat.

Definition to_upper (c : ascii) : ascii :=
  if is_lower c then ascii_of_nat (code c - 32) else c.

Definition to_lower (c : ascii) : ascii :=
  if is_upper c then ascii_of_nat (code c + 32) else c.

Definition digit_val (c : ascii) : Z := Z.of_nat (code c - 48).

Fixpoint drop_while (p : ascii -> bool) (l : list ascii) : list ascii :=
  match l with
  | c :: l' => if p c then drop_while p l' else l
  | [] => []
  end.

Fixpoint take_while (p : ascii -> bool) (l : list ascii) : list ascii :=
  match l with
  | c :: l' => if p c then c :: take_while p l' else []
  | [] => []
  end.

Definition trimStart_chars (l : list ascii) : list ascii := drop_while is_space l.

Definition trim_chars (l : list ascii) : list ascii :=
  rev (drop_while is_space (rev (drop_while is_space l))).

(** [String.prototype.trim] *)
Definition trim (s : string) : string := str (trim_chars (chars s)).

Fixpoint starts_with (p l : list ascii) : bool :=
  match p, l with
  | [], _ => true
  | a :: p', b :: l' => Ascii.eqb a b && starts_with p' l'
  | _ :: _, [] => false
  end.

(** [String.prototype.startsWith] *)
Definition startsWith (s p : string) : bool := starts_with (chars p) (chars s).

Fixpoint includes_chars (p l : list ascii) : bool :=
  starts_with p l ||
  match l with
  | [] => false
  | _ :: l' => includes_chars p l'
  end.

(** [String.prototype.includes] *)
Definition includes (s p : string) : bool := includes_chars (chars p) (chars s).

(** [String.prototype.toUpperCase]; only the ASCII letters have case here. *)
Definition toUpperCase (s : string) : string := str (map to_upper (chars s)).

(** [content.split(/\r?\n/)]: a separator is LF, or CR immediately followed
    by LF.  [cur] is the current segment, reversed. *)
Fixpoint split_lines_aux (cur : list ascii) (l : list ascii) : list string :=
  match l with
  | [] => [str (rev cur)]
  | c :: l' =>
      if Ascii.eqb c "010" then str (rev cur) :: split_lines_aux [] l'
      else if Ascii.eqb c "013" then
        match l' with
        | d :: l'' =>
            if Ascii.eqb d "010" then str (rev cur) :: split_lines_aux [] l''
            else split_lines_aux (c :: cur) l'
        | [] => split_lines_aux (c :: cur) l'
        end
      else split_lines_aux (c :: cur) l'
  end.

Definition split_lines (s : string) : list string := split_lines_aux [] (chars s).

(** Decimal digits of a natural number, most significant first. *)
Fixpoint digits_of_nat_aux (fuel n : nat) (acc : list ascii) : list ascii :=
  match fuel with
  | O => acc
  | S fuel' =>
      let acc' := ascii_of_nat (48 + n mod 10) :: acc in
      if (n <? 10)%nat then acc' else digits_of_nat_aux fuel' (n / 10) acc'
  end.

Definition string_of_nat (n : nat) : string := str (digits_of_nat_aux (S n) n []).

(** ToString on an integer, as used for a computed property key. *)
Definition string_of_Z (z : Z) : string :=
  match z with
  | Z0 => "0"
  | Zpos p => string_of_nat (Pos.to_nat p)
  | Zneg p => "-" ++ string_of_nat (Pos.to_nat p)
  end.

End JsString.

Export JsString.

(** ** Regular expressions

    A backtracking matcher for the fragment of ECMAScript patterns the
    profile grammar uses: literals, classes, sequence, alternation, greedy
    [*] and [?], capture groups and the [^] assertion, with the [i] flag. *)

Module Regex.

Inductive regex : Type :=
| REmpty : regex
| RBol : regex
| RChar (c : ascii) : regex
| RSet (p : ascii -> bool) : regex
| RSeq (r1 r2 : regex) : regex
| RAlt (r1 r2 : regex) : regex
| RStar (r : regex) : regex
| ROpt (r : regex) : regex
| RGroup (n : nat) (r : regex) : regex.

(** [r+] *)
Definition RPlus (r : regex) : regex := RSeq r (RStar r).

Fixpoint RLit_chars (l : list ascii) : regex :=
  match l with
  | [] => REmpty
  | [c] => RChar c
  | c :: l' => RSeq (RChar c) (RLit_chars l')
  end.

Definition RLit (s : string) : regex := RLit_chars (chars s).

Fixpoint RCat (rs : list regex) : regex :=
  match rs with
  | [] => REmpty
  | [r] => r
  | r :: rs' => RSeq r (RCat rs')
  end.

(** Captures: group number to matched text; an absent group is undefined. *)
Definition captures : Type := list (nat * string).

Fixpoint capture (n : nat) (caps : captures) : option string :=
  match caps with
  | [] => None
  | (m, s) :: caps' => if Nat.eqb m n then Some s else capture n caps'
  end.

Definition set_capture (n : nat) (s : string) (caps : captures) : captures :=
  (n, s) :: caps.

(** Canonicalize, for the [i] flag. *)
Definition canon (ic : bool) (c : ascii) : ascii := if ic then to_upper c else c.

Definition char_matches (ic : bool) (c x : ascii) : bool :=
  Ascii.eqb (canon ic c) (canon ic x).

Definition set_matches (ic : bool) (p : ascii -> bool) (x : ascii) : bool :=
  if ic then p x || p (to_upper x) || p (to_lower x) else p x.

Definition cont : Type := nat -> list ascii -> captures -> option captures.

(** [rmatch ic r pos s caps k]: match [r] at offset [pos], where [s] is the
    rest of the input, then continue with [k].  An iteration of [*] or [?]
    that consumes nothing is rejected, as RepeatMatcher does. *)
Fixpoint rmatch (ic : bool) (r : regex) (pos : nat) (s : list ascii)
    (caps : captures) (k : cont) {struct r} : option captures :=
  match r with
  | REmpty => k pos s caps
  | RBol => if Nat.eqb pos 0 then k pos s caps else None
  | RChar c =>
      match s with
      | x :: s' => if char_matches ic c x then k (S pos) s' caps else None
      | [] => None
      end
  | RSet p =>
      match s with
      | x :: s' => if set_matches ic p x then k (S pos) s' caps else None
      | [] => None
      end
  | RSeq r1 r2 =>
      rmatch ic r1 pos s caps (fun pos' s' caps' => rmatch ic r2 pos' s' caps' k)
  | RAlt r1 r2 =>
      match rmatch ic r1 pos s caps k with
      | Some res => Some res
      | None => rmatch ic r2 pos s caps k
      end
  | RStar r' =>
      (fix loop (fuel : nat) (pos : nat) (s : list ascii) (caps : captures)
         {struct fuel} : option captures :=
         match fuel with
         | O => k pos s caps
         | S fuel' =>
             match rmatch ic r' pos s caps
                     (fun pos' s' caps' =>
                        if Nat.eqb pos' pos then None
                        else loop fuel' pos' s' caps') with
             | Some res => Some res
             | None => k pos s caps
             end
         end) (S (List.length s)) pos s caps
  | ROpt r' =>
      match rmatch ic r' pos s caps
              (fun pos' s' caps' =>
                 if Nat.eqb pos' pos then None else k pos' s' caps') with
      | Some res => Some res
      | None => k pos s caps
      end
  | RGroup n r' =>
      rmatch ic r' pos s caps
        (fun pos' s' caps' =>
           k pos' s' (set_capture n (str (firstn (pos' - pos) s)) caps'))
  end.

(** Try the pattern at every start offset, leftmost first. *)
Fixpoint exec_from (ic : bool) (r : regex) (pos : nat) (s : list ascii)
    : option captures :=
  match rmatch ic r pos s [] (fun _ _ caps => Some caps) with
  | Some caps => Some caps
  | None =>
      match s with
      | [] => None
      | _ :: s' => exec_from ic r (S pos) s'
      end
  end.

(** [s.match(r)] for a pattern without the [g] flag. *)
Definition regex_match (ic : bool) (r : regex) (s : string) : option captures :=
  exec_from ic r 0 (chars s).

End Regex.

Export Regex.

(** ** Runtime values *)

Module JsValue.

Local Open Scope string_scope.
Local Set Warnings "-register-all".

Inductive value : Type :=
| VUndef : value
| VNull : value
| VBool (b : bool) : value
| VNum (n : num) : value
| VStr (s : string) : value
| VArr (items : list value) : value
| VObj (props : list (string * value)) : value.

Inductive exn : Type :=
| SyntaxError : exn
| TypeError : exn
| Error (message : string) : exn.

Inductive completion (A : Type) : Type :=
| Normal (a : A) : completion A
| Throw (e : exn) : completion A.

Arguments Normal {A} a.
Arguments Throw {A} e.

(** ToBoolean *)
Definition truthy (v : value) : bool :=
  match v with
  | VUndef | VNull => false
  | VBool b => b
  | VNum n => JsNum.truthy n
  | VStr s => negb (String.eqb s "")
  | VArr _ | VObj _ => true
  end.

(** [o.k] on an object's own properties; a missing property is undefined. *)
Fixpoint get_prop (k : string) (props : list (string * value)) : value :=
  match props with
  | [] => VUndef
  | (k', v) :: props' => if String.eqb k' k then v else get_prop k props'
  end.

Fixpoint has_prop (k : string) (props : list (string * value)) : bool :=
  match props with
  | [] => false
  | (k', _) :: props' => String.eqb k' k || has_prop k props'
  end.

(** [o.k = v]: an existing property keeps its place, a new one goes last. *)
Fixpoint set_prop (k : string) (v : value) (props : list (string * value))
    : list (string * value) :=
  match props with
  | [] => [(k, v)]
  | (k', v') :: props' =>
      if String.eqb k' k then (k', v) :: props'
      else (k', v') :: set_prop k v props'
  end.

(** Property read [v.k] on any value: reading from undefined or null throws,
    a primitive has none of the properties read by this program. *)
Definition get (v : value) (k : string) : completion value :=
  match v with
  | VUndef | VNull => Throw TypeError
  | VObj props => Normal (get_prop k props)
  | _ => Normal VUndef
  end.

(** Object spread followed by explicit properties: [{...o, k1: v1, ...}]. *)
Definition spread_then (o : value) (upd : list (string * value)) : value :=
  let base := match o with VObj props => props | _ => [] end in
  VObj (fold_left (fun acc kv => set_prop (fst kv) (snd kv) acc) upd base).

(** Element read [a[i]] for an integer [i]. *)
Definition nth_item (items : list value) (i : Z) : value :=
  if (i <? 0)%Z then VUndef else nth (Z.to_nat i) items VUndef.

(** Replace element [i] of a list, which must exist. *)
Fixpoint replace_nth (i : nat) (v : value) (items : list value) : list value :=
  match i, items with
  | _, [] => []
  | O, _ :: items' => v :: items'
  | S i', x :: items' => x :: replace_nth i' v items'
  end.

Definition in_bounds (i : Z) (items : list value) : bool :=
  ((0 <=? i) && (i <? Z.of_nat (List.length items)))%Z.

End JsValue.

Export JsValue.

(** ** Number parsing *)

Module JsParse.

Local Open Scope char_scope.

(** [m * 10^e] *)
Definition dec (m e : Z) : R := IZR m * powerRZ 10 e.

Fixpoint digits_val (acc : Z) (ds : list ascii) : Z :=
  match ds with
  | [] => acc
  | d :: ds' => digits_val (10 * acc + digit_val d)%Z ds'
  end.

Inductive literal : Type :=
| LitNaN : literal
| LitInf (negative : bool) : literal
| LitDec (m e : Z) : literal.

Definition num_of_literal (l : literal) : num :=
  match l with
  | LitNaN => NaN
  | LitInf false => PInf
  | LitInf true => NInf
  | LitDec m e => Fin (dec m e)
  end.

Definition read_sign (l : list ascii) : bool * list ascii :=
  match l with
  | "-" :: l' => (true, l')
  | "+" :: l' => (false, l')
  | _ => (false, l)
  end.

(** ExponentPart after a mantissa: [e] or [E], an optional sign and at least
    one digit; anything else leaves the exponent at 0. *)
Definition read_exponent (l : list ascii) : Z :=
  match l with
  | c :: l' =>
      if Ascii.eqb c "e" || Ascii.eqb c "E" then
        let '(neg, l'') := read_sign l' in
        let ds := take_while is_digit l'' in
        match ds with
        | [] => 0%Z
        | _ => if neg then (- digits_val 0 ds)%Z else digits_val 0 ds
        end
      else 0%Z
  | [] => 0%Z
  end.

(** The longest prefix of the input that is a StrDecimalLiteral. *)
Definition read_literal (l : list ascii) : literal :=
  let '(neg, l1) := read_sign (trimStart_chars l) in
  if starts_with (chars "Infinity") l1 then LitInf neg
  else
    let ip := take_while is_digit l1 in
    let l2 := drop_while is_digit l1 in
    let '(fp, l3) :=
      match l2 with
      | "." :: l2' => (take_while is_digit l2', drop_while is_digit l2')
      | _ => ([], l2)
      end in
    match ip, fp with
    | [], [] => LitNaN
    | _, _ =>
        let m := digits_val 0 (ip ++ fp) in
        let e := (read_exponent l3 - Z.of_nat (List.length fp))%Z in
        LitDec (if neg then (- m)%Z else m) e
    end.

(** [parseFloat] *)
Definition parseFloat (s : string) : num := num_of_literal (read_literal (chars s)).

(** [parseInt(s, 10)]; [None] stands for NaN. *)
Definition parseInt (s : string) : option Z :=
  let '(neg, l1) := read_sign (trimStart_chars (chars s)) in
  match take_while is_digit l1 with
  | [] => None
  | ds => Some (if neg then (- digits_val 0 ds)%Z else digits_val 0 ds)
  end.

End JsParse.

Export JsParse.

(** ** JSON.parse *)

Module Json.

Local Open Scope char_scope.

Inductive token : Type :=
| TLBrace | TRBrace | TLBrack | TRBrack | TColon | TComma
| TTrue | TFalse | TNull
| TStr (s : string)
| TNum (n : num).

(** JSON whitespace: SP, TAB, LF, CR. *)
Definition is_json_ws (c : ascii) : bool :=
  Ascii.eqb c " " || Ascii.eqb c "009" || Ascii.eqb c "010" || Ascii.eqb c "013".

Definition hex_val (c : ascii) : option nat :=
  let n := code c in
  if is_digit c then Some (n - 48)%nat
  else if ((65 <=? n) && (n <=? 70))%nat then Some (n - 55)%nat
  else if ((97 <=? n) && (n <=? 102))%nat then Some (n - 87)%nat
  else None.

(** Body of a string literal, after the opening quote.  An escape above
    code unit 255 names a character that a [string] cannot hold and is not
    read. *)
Fixpoint lex_string (l : list ascii) (acc : list ascii)
    : option (string * list ascii) :=
  match l with
  | [] => None
  | "034" :: l' => Some (str (rev acc), l')
  | "\" :: "u" :: h1 :: h2 :: h3 :: h4 :: l' =>
      match hex_val h1, hex_val h2, hex_val h3, hex_val h4 with
      | Some 0%nat, Some 0%nat, Some a, Some b =>
          lex_string l' (ascii_of_nat (16 * a + b) :: acc)
      | _, _, _, _ => None
      end
  | "\" :: c :: l' =>
      let esc (x : ascii) := lex_string l' (x :: acc) in
      if Ascii.eqb c "034" then esc "034"
      else if Ascii.eqb c "\" then esc "\"
      else if Ascii.eqb c "/" then esc "/"
      else if Ascii.eqb c "b" then esc "008"
      else if Ascii.eqb c "f" then esc "012"
      else if Ascii.eqb c "n" then esc "010"
      else if Ascii.eqb c "r" then esc "013"
      else if Ascii.eqb c "t" then esc "009"
      else None
  | c :: l' => if (code c <? 32)%nat then None else lex_string l' (c :: acc)
  end.

(** A JSON number: an optional minus, an integer part without a leading
    zero, an optional fraction and an optional exponent. *)
Definition lex_number (l : list ascii) : option (num * list ascii) :=
  let '(neg, l1) :=
    match l with "-" :: l' => (true, l') | _ => (false, l) end in
  let ip := take_while is_digit l1 in
  let l2 := drop_while is_digit l1 in
  let int_ok :=
    match ip with
    | [] => false
    | "0" :: _ :: _ => false
    | _ => true
    end in
  if negb int_ok then None
  else
    let frac :=
      match l2 with
      | "." :: l2' =>
          match take_while is_digit l2' with
          | [] => None
          | fp => Some (fp, drop_while is_digit l2')
          end
      | _ => Some ([], l2)
      end in
    match frac with
    | None => None
    | Some (fp, l3) =>
        let ex :=
          match l3 with
          | c :: l3' =>
              if Ascii.eqb c "e" || Ascii.eqb c "E" then
                let '(eneg, l4) := read_sign l3' in
                match take_while is_digit l4 with
                | [] => None
                | ds => Some (if eneg then (- digits_val 0 ds)%Z
                              else digits_val 0 ds,
                              drop_while is_digit l4)
                end
              else Some (0%Z, l3)
          | [] => Some (0%Z, l3)
          end in
        match ex with
        | None => None
        | Some (e, l5) =>
            let m := digits_val 0 (ip ++ fp) in
            Some (Fin (dec (if neg then (- m)%Z else m)
                           (e - Z.of_nat (List.length fp))), l5)
        end
    end.

Fixpoint lex (fuel : nat) (l : list ascii) : option (list token) :=
  match fuel with
  | O => match l with [] => Some [] | _ => None end
  | S fuel' =>
      match l with
      | [] => Some []
      | c :: l' =>
          let emit (t : token) (rest : list ascii) :=
            option_map (cons t) (lex fuel' rest) in
          if is_json_ws c then lex fuel' l'
          else if Ascii.eqb c "{" then emit TLBrace l'
          else if Ascii.eqb c "}" then emit TRBrace l'
          else if Ascii.eqb c "[" then emit TLBrack l'
          else if Ascii.eqb c "]" then emit TRBrack l'
          else if Ascii.eqb c ":" then emit TColon l'
          else if Ascii.eqb c "," then emit TComma l'
          else if Ascii.eqb c "034" then
            match lex_string l' [] with
            | Some (s, rest) => emit (TStr s) rest
            | None => None
            end
          else if starts_with (chars "true") l then emit TTrue (skipn 4 l)
          else if starts_with (chars "false") l then emit TFalse (skipn 5 l)
          else if starts_with (chars "null") l then emit TNull (skipn 4 l)
          else
            match lex_number l with
            | Some (n, rest) => emit (TNum n) rest
            | None => None
            end
      end
  end.

(** Build an object from its members in reading order; a repeated key keeps
    its first position and its last value. *)
Definition object_of (members : list (string * value)) : value :=
  VObj (fold_left (fun acc kv => set_prop (fst kv) (snd kv) acc) members []).

Fixpoint parse_value (fuel : nat) (ts : list token)
    : option (value * list token) :=
  match fuel with
  | O => None
  | S fuel' =>
      match ts with
      | TNull :: ts' => Some (VNull, ts')
      | TTrue :: ts' => Some (VBool true, ts')
      | TFalse :: ts' => Some (VBool false, ts')
      | TStr s :: ts' => Some (VStr s, ts')
      | TNum n :: ts' => Some (VNum n, ts')
      | TLBrack :: TRBrack :: ts' => Some (VArr [], ts')
      | TLBrack :: ts' =>
          match parse_elements fuel' ts' with
          | Some (items, rest) => Some (VArr items, rest)
          | None => None
          end
      | TLBrace :: TRBrace :: ts' => Some (object_of [], ts')
      | TLBrace :: ts' =>
          match parse_members fuel' ts' with
          | Some (members, rest) => Some (object_of members, rest)
          | None => None
          end
      | _ => None
      end
  end
with parse_elements (fuel : nat) (ts : list token)
    : option (list value * list token) :=
  match fuel with
  | O => None
  | S fuel' =>
      match parse_value fuel' ts with
      | Some (v, TComma :: rest) =>
          match parse_elements fuel' rest with
          | Some (vs, rest') => Some (v :: vs, rest')
          | None => None
          end
      | Some (v, TRBrack :: rest) => Some ([v], rest)
      | _ => None
      end
  end
with parse_members (fuel : nat) (ts : list token)
    : option (list (string * value) * list token) :=
  match fuel with
  | O => None
  | S fuel' =>
      match ts with
      | TStr k :: TColon :: ts' =>
          match parse_value fuel' ts' with
          | Some (v, TComma :: rest) =>
              match parse_members fuel' rest with
              | Some (ms, rest') => Some ((k, v) :: ms, rest')
              | None => None
              end
          | Some (v, TRBrace :: rest) => Some ([(k, v)], rest)
          | _ => None
          end
      | _ => None
      end
  end.

(** [JSON.parse]; [None] is a SyntaxError. *)
Definition JSON_parse (s : string) : option value :=
  let l := chars s in
  match lex (S (List.length l)) l with
  | None => None
  | Some ts =>
      match parse_value (S (2 * List.length ts)) ts with
      | Some (v, []) => Some v
      | _ => None
      end
  end.

(** What [JSON.parse(JSON.stringify(v))] returns for a value [v] that is
    serialised inside an array or as a property value: a number that is not
    finite comes back as null, an undefined array element as null, and an
    undefined property is left out. *)
Fixpoint JSON_clone (v : value) : value :=
  match v with
  | VUndef => VNull
  | VNull => VNull
  | VBool b => VBool b
  | VNum (Fin r) => VNum (Fin r)
  | VNum _ => VNull
  | VStr s => VStr s
  | VArr items => VArr (map JSON_clone items)
  | VObj props =>
      VObj ((fix clone_props (ps : list (string * value)) :=
               match ps with
               | [] => []
               | (k, VUndef) :: ps' => clone_props ps'
               | (k, x) :: ps' => (k, JSON_clone x) :: clone_props ps'
               end) props)
  end.

End Json.

Export Json.

(** ** The state store: [src/fn.ts] *)

Module Fn.

Local Open Scope string_scope.

Record HIDDevice : Type := { productName : string; vendorId : Z }.

(** The module-level variables [device], [globalGainState] and [eqState]. *)
Record State : Type := {
  device : option HIDDevice;
  globalGainState : value;
  eqState : value
}.

Definition setEqState (eq : value) (st : State) : State :=
  {| device := device st; globalGainState := globalGainState st; eqState := eq |}.

Definition setGlobalGainState (g : value) (st : State) : State :=
  {| device := device st; globalGainState := g; eqState := eqState st |}.

(** [setGlobalGain]: the store is the only effect kept; the UI update is not. *)
Definition setGlobalGain (g : value) (st : State) : State := setGlobalGainState g st.

(** The argument type [string | number | boolean] of [updateState]. *)
Inductive raw : Type :=
| RawStr (s : string)
| RawNum (n : num)
| RawBool (b : bool).

Definition value_of_raw (x : raw) : value :=
  match x with
  | RawStr s => VStr s
  | RawNum n => VNum n
  | RawBool b => VBool b
  end.

(** [parseFloat(value as string)]: the argument is first turned into a
    string; a number prints and reads back as itself, a boolean reads as NaN. *)
Definition parseFloat_raw (x : raw) : num :=
  match x with
  | RawStr s => parseFloat s
  | RawNum n => n
  | RawBool _ => NaN
  end.

(** [slot[key] = v] in strict mode, for a primitive [v].  A store into
    undefined, null or a primitive throws.  The inherited [__proto__] setter
    ignores a primitive.  A named store into an array cannot be kept by
    [value]: [None]. *)
Definition assign_prop (slot : value) (key : string) (v : value)
    : option (completion value) :=
  match slot with
  | VUndef | VNull => Some (Throw TypeError)
  | VBool _ | VNum _ | VStr _ => Some (Throw TypeError)
  | VObj props =>
      if String.eqb key "__proto__" && negb (has_prop key props)
      then Some (Normal slot)
      else Some (Normal (VObj (set_prop key v props)))
  | VArr _ => None
  end.

(** One code unit of a string, as [s[i]] returns it. *)
Definition char_at (s : string) (i : Z) : value :=
  if ((0 <=? i) && (i <? Z.of_nat (String.length s)))%Z
  then match String.get (Z.to_nat i) s with
       | Some c => VStr (String c EmptyString)
       | None => VUndef
       end
  else VUndef.

(** [eqState[index][key] = value] *)
Definition setEQ (index : Z) (key : string) (v : value) (st : State)
    : option (completion State) :=
  let store (slot : value) (put : value -> value) :=
    match assign_prop slot key v with
    | None => None
    | Some (Throw e) => Some (Throw e)
    | Some (Normal slot') => Some (Normal (setEqState (put slot') st))
    end in
  match eqState st with
  | VUndef | VNull => Some (Throw TypeError)
  | VArr items =>
      store (nth_item items index)
            (fun slot' => VArr (replace_nth (Z.to_nat index) slot' items))
  | VObj props =>
      store (get_prop (string_of_Z index) props)
            (fun slot' => VObj (set_prop (string_of_Z index) slot' props))
  | VStr s => store (char_at s index) (fun _ => VStr s)
  | VBool _ | VNum _ => store VUndef (fun _ => eqState st)
  end.

Definition raw_truthy (x : raw) : bool := truthy (value_of_raw x).

(** [updateState]; the closing [renderUI] call leaves the store alone. *)
Definition updateState (index : Z) (key : string) (x : raw) (st : State)
    : option (completion State) :=
  let v :=
    if String.eqb key "freq" || String.eqb key "gain" || String.eqb key "q"
    then VNum (parseFloat_raw x)
    else if String.eqb key "enabled" then VBool (raw_truthy x)
    else value_of_raw x in
  setEQ index key v st.

(** The state a caller observes after a call: a throw leaves it as it was. *)
Definition state_after (st : State) (r : option (completion State)) : State :=
  match r with
  | Some (Normal st') => st'
  | _ => st
  end.

Section Defaults.

(** The frequency table of [constants.ts]. *)
Variable DEFAULT_FREQS : list num.

Definition default_band (i : nat) (freq : num) : value :=
  VObj [ ("index", VNum (of_Z (Z.of_nat i)));
         ("freq", VNum freq);
         ("gain", VNum (Fin 0));
         ("q", VNum (Fin 0.75));
         ("type", VStr "PK");
         ("enabled", VBool true) ].

Fixpoint map_indexed (i : nat) (freqs : list num) : list value :=
  match freqs with
  | [] => []
  | f :: freqs' => default_band i f :: map_indexed (S i) freqs'
  end.

Definition default_bands : list value := map_indexed 0 DEFAULT_FREQS.

Definition defaultEqState : value := VArr default_bands.

(** [resetToDefaults]; [confirmed] is the answer to the [confirm] dialog. *)
Definition resetToDefaults (confirmed : bool) (st : State) : State :=
  if negb confirmed then st
  else setGlobalGain (VNum (Fin 0)) (setEqState defaultEqState st).

(** The state at module load. *)
Definition initial_state : State :=
  {| device := None; globalGainState := VNum (Fin 0); eqState := defaultEqState |}.

End Defaults.

End Fn.

Export Fn.

(** ** The profile codec: [src/importExport.ts] *)

Module ImportExport.

Local Open Scope string_scope.

Record ProfileData : Type := { globalGain : value; bands : value }.

(** The object that [exportProfile] hands to [JSON.stringify]; nothing is
    exported without a device.  [now] is [new Date().toISOString()]. *)
Definition exportProfile (now : string) (st : State) : option value :=
  match device st with
  | None => None
  | Some _ =>
      Some (VObj [ ("device", VStr "JM98MAX");
                   ("timestamp", VStr now);
                   ("globalGain", globalGainState st);
                   ("bands", eqState st) ])
  end.

Definition missing_bands : exn :=
  Error "Invalid JSON profile: missing 'bands' property".

(** The body of [parseJsonProfile] after [JSON.parse]. *)
Definition profile_of_data (data : value) : completion ProfileData :=
  match get data "bands" with
  | Throw e => Throw e
  | Normal b =>
      if negb (truthy b) then Throw missing_bands
      else match get data "globalGain" with
           | Throw e => Throw e
           | Normal g =>
               Normal {| globalGain := if truthy g then g else VNum (Fin 0);
                         bands := b |}
           end
  end.

Definition parseJsonProfile (content : string) : completion ProfileData :=
  match JSON_parse content with
  | None => Throw SyntaxError
  | Some data => profile_of_data data
  end.

Definition ws : regex := RSet is_space.
Definition digit : regex := RSet is_digit.
Definition dot : regex := RChar "."%char.
Definition minus : regex := RChar "-"%char.

(** [/^Preamp:\s*(-?\d+(\.\d+)?)\s*(?:dB)?/i] *)
Definition preampRegex : regex :=
  RCat [ RBol; RLit "Preamp:"; RStar ws;
         RGroup 1 (RCat [ROpt minus; RPlus digit;
                         ROpt (RGroup 2 (RSeq dot (RPlus digit)))]);
         RStar ws; ROpt (RLit "dB") ].

(** [\d+(?:\.\d+)?] *)
Definition unsigned_number : regex :=
  RSeq (RPlus digit) (ROpt (RSeq dot (RPlus digit))).

(** [/^Filter\s+(\d+):\s+(ON|OFF)\s+([A-Z]+)\s+Fc\s+(\d+(?:\.\d+)?)\s*(?:Hz)?\s+Gain\s+(-?\d+(?:\.\d+)?)\s*(?:dB)?\s+Q\s+(\d+(?:\.\d+)?)/i] *)
Definition filterRegex : regex :=
  RCat [ RBol; RLit "Filter"; RPlus ws;
         RGroup 1 (RPlus digit); RLit ":"; RPlus ws;
         RGroup 2 (RAlt (RLit "ON") (RLit "OFF")); RPlus ws;
         RGroup 3 (RPlus (RSet is_upper)); RPlus ws;
         RLit "Fc"; RPlus ws;
         RGroup 4 unsigned_number; RStar ws; ROpt (RLit "Hz"); RPlus ws;
         RLit "Gain"; RPlus ws;
         RGroup 5 (RSeq (ROpt minus) unsigned_number);
         RStar ws; ROpt (RLit "dB"); RPlus ws;
         RLit "Q"; RPlus ws;
         RGroup 6 unsigned_number ].

(** A capture that the pattern always sets when it matches. *)
Definition group (n : nat) (m : captures) : string :=
  match capture n m with Some s => s | None => "" end.

Section Defaults.

Variable DEFAULT_FREQS : list num.

(** The loop state of [parseTextProfile]: [globalGain] and [bands]. *)
Definition text_acc : Type := (num * list value)%type.

(** The write [bands[index] = {...bands[index], freq, gain, q, type, enabled}]
    for a line that matched [filterRegex]. *)
Definition apply_filter (m : captures) (bs : list value) : list value :=
  match parseInt (group 1 m) with
  | None => bs
  | Some n =>
      let index := (n - 1)%Z in
      if in_bounds index bs then
        let enabled := String.eqb (toUpperCase (group 2 m)) "ON" in
        let type := group 3 m in
        let freq := parseFloat (group 4 m) in
        let gain := parseFloat (group 5 m) in
        let q := parseFloat (group 6 m) in
        replace_nth (Z.to_nat index)
          (spread_then (nth_item bs index)
             [ ("freq", VNum freq); ("gain", VNum gain); ("q", VNum q);
               ("type", VStr type); ("enabled", VBool enabled) ])
          bs
      else bs
  end.

(** One iteration of the loop over the lines. *)
Definition text_step (acc : text_acc) (line : string) : text_acc :=
  let trimmed := trim line in
  if String.eqb trimmed "" then acc
  else match regex_match true preampRegex trimmed with
       | Some m => (parseFloat (group 1 m), snd acc)
       | None =>
           match regex_match true filterRegex trimmed with
           | Some m => (fst acc, apply_filter m (snd acc))
           | None => acc
           end
       end.

Definition parseTextProfile (content : string) : ProfileData :=
  let '(g, bs) :=
    fold_left text_step (split_lines content)
              (Fin 0, default_bands DEFAULT_FREQS) in
  {| globalGain := VNum g; bands := VArr bs |}.

Definition unknown_format : exn := Error "Unknown file format".

(** The format detection at the head of the [onload] handler. *)
Definition detect (result : string) : completion ProfileData :=
  if startsWith (trim result) "{" then parseJsonProfile result
  else if startsWith (trim result) "Preamp:" || includes result "Filter 1:"
  then Normal (parseTextProfile result)
  else Throw unknown_format.

Inductive import_result : Type :=
| Imported : import_result
| ImportError (e : exn) : import_result.

(** The [onload] handler of [importProfile], applied to the file's text:
    the new state and what was logged.  The store is written only after the
    profile has been read; a throw is caught and logged. *)
Definition importProfile (result : string) (st : State) : State * import_result :=
  match detect result with
  | Normal profile =>
      (setGlobalGainState (globalGain profile) (setEqState (bands profile) st),
       Imported)
  | Throw e => (st, ImportError e)
  end.

End Defaults.

End ImportExport.

Export ImportExport.

(** ** The DSP core: [src/peq.ts] *)

Module Peq.

Local Open Scope string_scope.

Declare Scope num_scope.
Delimit Scope num_scope with num.
Bind Scope num_scope with num.
Notation "x + y" := (JsNum.add x y) : num_scope.
Notation "x - y" := (JsNum.sub x y) : num_scope.
Notation "x * y" := (JsNum.mul x y) : num_scope.
Notation "x / y" := (JsNum.div x y) : num_scope.
Notation "- x" := (JsNum.neg x) : num_scope.

(** The type [Band] of [main.ts]. *)
Record Band : Type := {
  index : num;
  freq : num;
  gain : num;
  q : num;
  type : string;
  enabled : bool
}.

Record Coeffs : Type := { b0 : num; b1 : num; b2 : num; a1 : num; a2 : num }.

Definition identity_filter : Coeffs :=
  {| b0 := Fin 1; b1 := Fin 0; b2 := Fin 0; a1 := Fin 0; a2 := Fin 0 |}.

(** The default [sampleRate = 48000]. *)
Definition default_sampleRate : num := Fin 48000.

Local Open Scope num_scope.

Definition calculateBiquad (band : Band) (sampleRate : num) : Coeffs :=
  if negb (enabled band) then identity_filter
  else
    let w0 := Fin 2 * Math_PI * freq band / sampleRate in
    let alpha := Math_sin w0 / (Fin 2 * q band) in
    let A := Math_pow (Fin 10) (gain band / Fin 40) in
    let cosw := Math_cos w0 in
    let '(b0, b1, b2, a0, a1, a2) :=
      if String.eqb (type band) "PK" then
        (Fin 1 + alpha * A,
         - Fin 2 * cosw,
         Fin 1 - alpha * A,
         Fin 1 + alpha / A,
         - Fin 2 * cosw,
         Fin 1 - alpha / A)
      else if String.eqb (type band) "LSQ" then
        let sa := Fin 2 * Math_sqrt A * alpha in
        (A * ((A + Fin 1) - (A - Fin 1) * cosw + sa),
         Fin 2 * A * ((A - Fin 1) - (A + Fin 1) * cosw),
         A * ((A + Fin 1) - (A - Fin 1) * cosw - sa),
         (A + Fin 1) + (A - Fin 1) * cosw + sa,
         - Fin 2 * ((A - Fin 1) + (A + Fin 1) * cosw),
         (A + Fin 1) + (A - Fin 1) * cosw - sa)
      else if String.eqb (type band) "HSQ" then
        let sb := Fin 2 * Math_sqrt A * alpha in
        (A * ((A + Fin 1) + (A - Fin 1) * cosw + sb),
         - Fin 2 * A * ((A - Fin 1) + (A + Fin 1) * cosw),
         A * ((A + Fin 1) + (A - Fin 1) * cosw - sb),
         (A + Fin 1) - (A - Fin 1) * cosw + sb,
         Fin 2 * ((A - Fin 1) - (A + Fin 1) * cosw),
         (A + Fin 1) - (A - Fin 1) * cosw - sb)
      else
        (Fin 1, Fin 0, Fin 0, Fin 1, Fin 0, Fin 0) in
    {| b0 := b0 / a0; b1 := b1 / a0; b2 := b2 / a0;
       a1 := a1 / a0; a2 := a2 / a0 |}.

(** The term one filter adds to [totalDb] inside [getMagnitude]. *)
Definition section_db (cos1 cos2 sin1 sin2 : num) (c : Coeffs) : num :=
  let numRe := b0 c + b1 c * cos1 + b2 c * cos2 in
  let numIm := - (b1 c * sin1 + b2 c * sin2) in
  let denRe := Fin 1 + a1 c * cos1 + a2 c * cos2 in
  let denIm := - (a1 c * sin1 + a2 c * sin2) in
  let magSq := (numRe * numRe + numIm * numIm) / (denRe * denRe + denIm * denIm) in
  Fin 10 * Math_log10 magSq.

Definition getMagnitude (f : num) (coeffsList : list Coeffs) (sampleRate : num)
    : num :=
  let w := Fin 2 * Math_PI * f / sampleRate in
  let cos1 := Math_cos w in
  let cos2 := Math_cos (Fin 2 * w) in
  let sin1 := Math_sin w in
  let sin2 := Math_sin (Fin 2 * w) in
  fold_left (fun totalDb c => totalDb + section_db cos1 cos2 sin1 sin2 c)
            coeffsList (Fin 0).

(** The object [CONFIG]. *)
Record Config : Type := {
  minFreq : num; maxFreq : num; minGain : num; gainRange : num; padding : num
}.

Definition CONFIG : Config :=
  {| minFreq := Fin 20; maxFreq := Fin 20000; minGain := Fin (-20);
     gainRange := Fin 20; padding := Fin 40 |}.

Definition freqToX (f width : num) : num :=
  let logMin := Math_log10 (minFreq CONFIG) in
  let logMax := Math_log10 (maxFreq CONFIG) in
  let logFreq := Math_log10 (Math_max f (minFreq CONFIG)) in
  padding CONFIG
  + ((logFreq - logMin) / (logMax - logMin)) * (width - Fin 2 * padding CONFIG).

Definition xToFreq (x width : num) : num :=
  let logMin := Math_log10 (minFreq CONFIG) in
  let logMax := Math_log10 (maxFreq CONFIG) in
  let ratio := (x - padding CONFIG) / (width - Fin 2 * padding CONFIG) in
  Math_pow (Fin 10) (logMin + ratio * (logMax - logMin)).

Definition gainToY (g height : num) : num :=
  height / Fin 2 - (g / gainRange CONFIG) * (height / Fin 2 - padding CONFIG).

Definition yToGain (y height : num) : num :=
  - (y - height / Fin 2) * gainRange CONFIG / (height / Fin 2 - padding CONFIG).

(** [localBands.map(b => calculateBiquad(b))] at the head of [drawCurve]. *)
Definition activeCoeffs (localBands : list Band) : list Coeffs :=
  map (fun b => calculateBiquad b default_sampleRate) localBands.

(** The vertices [(x, y)] that the loop of [drawCurve] hands to [moveTo] and
    [lineTo], for the iterations [i, i + 1, ...]; [fuel] bounds how many
    iterations are unrolled. *)
Fixpoint drawCurve_from (fuel : nat) (i : num) (coeffs : list Coeffs)
    (width height : num) : list (num * num) :=
  match fuel with
  | O => []
  | S fuel' =>
      let endX := width - padding CONFIG in
      let startX := padding CONFIG in
      if leb i (endX - startX) then
        let x := startX + i in
        let f := xToFreq x width in
        let totalGain := getMagnitude f coeffs default_sampleRate in
        let y := gainToY totalGain height in
        (x, y) :: drawCurve_from fuel' (i + Fin 1) coeffs width height
      else []
  end.

Definition drawCurve (fuel : nat) (localBands : list Band) (width height : num)
    : list (num * num) :=
  drawCurve_from fuel (Fin 0) (activeCoeffs localBands) width height.

(** The [mousemove] handler while a handle is dragged: the frequency and
    the gain it passes to [handleUpdate], from the pointer offset inside
    the canvas rectangle. *)
Definition drag_freq (relX rect_width : num) : num :=
  let clampedX :=
    Math_max (padding CONFIG) (Math_min (rect_width - padding CONFIG) relX) in
  Math_round (xToFreq clampedX rect_width).

Definition drag_gain (relY rect_height : num) : num :=
  let clampedY :=
    Math_max (padding CONFIG) (Math_min (rect_height - padding CONFIG) relY) in
  Math_round (yToGain clampedY rect_height * Fin 10) / Fin 10.

(** The [mousedown] handler, with the pointer at [(x, y)] in canvas
    coordinates: the distance to the handle of a band, and the body of the
    [forEach] that keeps the index of the closest handle nearer than 20
    pixels; [acc] is [(closestIdx, minDst)]. *)
Definition handle_distance (x y w h : num) (band : Band) : num :=
  let bx := freqToX (freq band) w in
  let by' := gainToY (gain band) h in
  Math_sqrt (Math_pow (x - bx) (Fin 2) + Math_pow (y - by') (Fin 2)).

Definition pick_step (x y w h : num) (acc : num * num) (band : Band)
    : num * num :=
  let dist := handle_distance x y w h band in
  if ltb dist (Fin 20) then
    if ltb dist (snd acc) then (index band, dist) else acc
  else acc.

(** [closestIdx] when the [forEach] is over; -1 when no handle is picked. *)
Definition closest_handle (x y w h : num) (localBands : list Band) : num :=
  fst (fold_left (pick_step x y w h) localBands (Fin (-1), Fin 1000)).

(** A band object of the store read at the type [Band]; [None] when a field
    is missing or has another type. *)
Definition band_of_value (v : value) : option Band :=
  match v with
  | VObj props =>
      match get_prop "index" props, get_prop "freq" props,
            get_prop "gain" props, get_prop "q" props,
            get_prop "type" props, get_prop "enabled" props with
      | VNum i, VNum f, VNum g, VNum qq, VStr t, VBool e =>
          Some {| index := i; freq := f; gain := g; q := qq;
                  type := t; enabled := e |}
      | _, _, _, _, _, _ => None
      end
  | _ => None
  end.

End Peq.

Export Peq.

(** ** Predicates and concrete inputs used by the statements below *)

Module Inputs.

Local Open Scope string_scope.

(** A value that JSON text carries without loss: no undefined anywhere and
    every number finite. *)
Fixpoint json_safe (v : value) : bool :=
  match v with
  | VUndef => false
  | VNull | VBool _ | VStr _ => true
  | VNum (Fin _) => true
  | VNum _ => false
  | VArr items => forallb json_safe items
  | VObj props =>
      (fix safe_props (ps : list (string * value)) : bool :=
         match ps with
         | [] => true
         | (_, x) :: ps' => json_safe x && safe_props ps'
         end) props
  end.

(** Every band of the list is an object whose [index] is its position,
    counted from [k]. *)
Fixpoint well_indexed (k : nat) (bs : list value) : Prop :=
  match bs with
  | [] => True
  | b :: bs' =>
      (exists props, b = VObj props /\
                     get_prop "index" props = VNum (of_Z (Z.of_nat k))) /\
      well_indexed (S k) bs'
  end.

Definition newline : string := String "010"%char EmptyString.
Definition quote : string := String "034"%char EmptyString.

(** A ten-entry frequency table, standing in for the one of [constants.ts]
    wherever a closed example needs a concrete table. *)
Definition example_freqs : list num :=
  map of_Z [32; 64; 125; 250; 500; 1000; 2000; 4000; 8000; 16000]%Z.

Definition example_device : HIDDevice :=
  {| productName := "JM98MAX"; vendorId := 0 |}.

(** The two-line text profile of the specification's example. *)
Definition example_text : string :=
  "Preamp: -8.0 dB" ++ newline ++
  "Filter 1: ON PK Fc 34 Hz Gain -2.6 dB Q 0.800".

(** The squared modulus of [c0 + c1 z^-1 + c2 z^-2] on the unit circle at
    angle [w], in the form [getMagnitude] computes it for the numerator
    (with the b coefficients) and the denominator (with 1, a1, a2). *)
Definition quad_mag (c0 c1 c2 w : R) : R :=
  (c0 + c1 * cos w + c2 * cos (2 * w)) * (c0 + c1 * cos w + c2 * cos (2 * w)) +
  (- (c1 * sin w + c2 * sin (2 * w))) * (- (c1 * sin w + c2 * sin (2 * w))).



(** A text profile whose filter line matches the grammar and sets q to 0. *)
Definition zero_q_text : string := "Filter 1: ON PK Fc 1000 Hz Gain 0 dB Q 0".

(** A connected one-band state and the JSON text of its export. *)
Definition example_state : State :=
  {| device := Some example_device;
     globalGainState := VNum (Fin (-3));
     eqState := VArr [ VObj [ ("index", VNum (Fin 0)); ("freq", VNum (Fin 1000));
                              ("gain", VNum (Fin 0)); ("q", VNum (Fin 0.75));
                              ("type", VStr "PK"); ("enabled", VBool true) ] ] |}.

Definition qs (s : string) : string := quote ++ s ++ quote.

Definition example_json : string :=
  "{" ++ qs "device" ++ ": " ++ qs "JM98MAX" ++ ", " ++
         qs "timestamp" ++ ": " ++ qs "2024-01-01T00:00:00.000Z" ++ ", " ++
         qs "globalGain" ++ ": -3, " ++
         qs "bands" ++ ": [{" ++
           qs "index" ++ ": 0, " ++ qs "freq" ++ ": 1000, " ++
           qs "gain" ++ ": 0, " ++ qs "q" ++ ": 0.75, " ++
           qs "type" ++ ": " ++ qs "PK" ++ ", " ++
           qs "enabled" ++ ": true}]}".

(** The value that [updateState] hands to [setEQ] for [key] and the
    argument [x]: [parseFloat] of it for [freq], [gain] and [q], [Boolean]
    of it for [enabled], the argument itself for any other key. *)
Definition coerced (key : string) (x : raw) : value :=
  if String.eqb key "freq" || String.eqb key "gain" || String.eqb key "q"
  then VNum (parseFloat_raw x)
  else if String.eqb key "enabled" then VBool (raw_truthy x)
  else value_of_raw x.

(** A band object with exactly the six fields of [defaultEqState], in its
    order and at its types. *)
Definition canonical_band (v : value) : Prop :=
  exists (i f g qv : num) (t : string) (e : bool),
    v = VObj [ ("index", VNum i); ("freq", VNum f); ("gain", VNum g);
               ("q", VNum qv); ("type", VStr t); ("enabled", VBool e) ].

(** The three things a line of a text profile can be for the loop of
    [parseTextProfile]: a preamp line with captures [m]; a filter line with
    captures [m] naming band number [n] (one-based); a line it passes over. *)
Definition preamp_line (line : string) (m : captures) : Prop :=
  trim line <> "" /\ regex_match true preampRegex (trim line) = Some m.

Definition filter_line (line : string) (m : captures) (n : Z) : Prop :=
  trim line <> "" /\
  regex_match true preampRegex (trim line) = None /\
  regex_match true filterRegex (trim line) = Some m /\
  parseInt (group 1 m) = Some n.

Definition ignored_line (line : string) : Prop :=
  trim line = "" \/
  (regex_match true preampRegex (trim line) = None /\
   regex_match true filterRegex (trim line) = None).

(** The object [{...old, freq, gain, q, type, enabled}] that a filter line
    with captures [m] stores over the band [old]. *)
Definition written_band (m : captures) (old : value) : value :=
  spread_then old
    [ ("freq", VNum (parseFloat (group 4 m)));
      ("gain", VNum (parseFloat (group 5 m)));
      ("q", VNum (parseFloat (group 6 m)));
      ("type", VStr (group 3 m));
      ("enabled", VBool (String.eqb (toUpperCase (group 2 m)) "ON")) ].

(** The loop state of [parseTextProfile] before the first line. *)
Definition start_acc (freqs : list num) : text_acc := (Fin 0, default_bands freqs).

(** Lines of text profiles for the closed examples. *)
Definition line_preamp_a : string := "Preamp: -2 dB".
Definition line_preamp_b : string := "Preamp: -6.5 dB".
Definition line_filter1_a : string := "Filter 1: ON PK Fc 100 Hz Gain 1 dB Q 1".
Definition line_filter1_b : string := "Filter 1: OFF LSQ Fc 200 Hz Gain -2 dB Q 2".
Definition line_filter2 : string := "Filter 2: ON HSQ Fc 8000 Hz Gain 3 dB Q 0.7".
Definition line_filter11 : string := "Filter 11: ON PK Fc 100 Hz Gain 1 dB Q 1".
Definition line_comment : string := "# see Filter 1: below".

Definition text_of_lines (lines : list string) : string :=
  String.concat newline lines.

(** The words a pattern can consume, read off the matcher case by case;
    an assertion consumes nothing. *)
Inductive lang (ic : bool) : regex -> list ascii -> Prop :=
| lang_empty : lang ic REmpty []
| lang_bol : lang ic RBol []
| lang_char (c x : ascii) :
    char_matches ic c x = true -> lang ic (RChar c) [x]
| lang_set (p : ascii -> bool) (x : ascii) :
    set_matches ic p x = true -> lang ic (RSet p) [x]
| lang_seq (r1 r2 : regex) (u v : list ascii) :
    lang ic r1 u -> lang ic r2 v -> lang ic (RSeq r1 r2) (u ++ v)
| lang_alt_l (r1 r2 : regex) (u : list ascii) :
    lang ic r1 u -> lang ic (RAlt r1 r2) u
| lang_alt_r (r1 r2 : regex) (u : list ascii) :
    lang ic r2 u -> lang ic (RAlt r1 r2) u
| lang_star_nil (r : regex) : lang ic (RStar r) []
| lang_star_cons (r : regex) (u v : list ascii) :
    lang ic r u -> lang ic (RStar r) v -> lang ic (RStar r) (u ++ v)
| lang_opt_none (r : regex) : lang ic (ROpt r) []
| lang_opt_some (r : regex) (u : list ascii) :
    lang ic r u -> lang ic (ROpt r) u
| lang_group (n : nat) (r : regex) (u : list ascii) :
    lang ic r u -> lang ic (RGroup n r) u.

(** The groups that every match of the pattern sets. *)
Fixpoint sure_groups (r : regex) : list nat :=
  match r with
  | RGroup n r' => n :: sure_groups r'
  | RSeq r1 r2 => sure_groups r1 ++ sure_groups r2
  | _ => []
  end.

(** Every group of the pattern captures only words with the property [G]
    of its number. *)
Fixpoint groups_ok (ic : bool) (G : nat -> list ascii -> Prop) (r : regex)
    : Prop :=
  match r with
  | RGroup n r' => (forall u, lang ic r' u -> G n u) /\ groups_ok ic G r'
  | RSeq r1 r2 | RAlt r1 r2 => groups_ok ic G r1 /\ groups_ok ic G r2
  | RStar r' | ROpt r' => groups_ok ic G r'
  | _ => True
  end.

Definition caps_ok (G : nat -> list ascii -> Prop) (caps : captures) : Prop :=
  forall n t, capture n caps = Some t -> G n (chars t).

Definition has_group (n : nat) (caps : captures) : Prop := capture n caps <> None.

(** A text that begins with a digit, and one that begins with a digit or
    with a minus sign and a digit. *)
Definition starts_digit (u : list ascii) : bool :=
  match u with
  | c :: _ => is_digit c
  | [] => false
  end.

Definition starts_number (u : list ascii) : bool :=
  match u with
  | c :: rest => is_digit c || (Ascii.eqb c "-"%char && starts_digit rest)
  | [] => false
  end.

(** What the groups of [filterRegex] and of [preampRegex] capture. *)
Definition filter_group (n : nat) (u : list ascii) : Prop :=
  match n with
  | 4%nat | 6%nat => starts_digit u = true
  | 5%nat => starts_number u = true
  | _ => True
  end.

Definition preamp_group (n : nat) (u : list ascii) : Prop :=
  match n with
  | 1%nat => starts_number u = true
  | _ => True
  end.

(** A number that is neither NaN nor negative. *)
Definition nonneg (x : num) : Prop :=
  match x with
  | Fin r => 0 <= r
  | PInf => True
  | NaN | NInf => False
  end.

(** A band object in the shape of [defaultEqState] with no NaN among its
    numbers and neither [freq] nor [q] negative; and a band object that
    reads so at the type [Band]. *)
Definition clean_band (v : value) : Prop :=
  exists (i f g qv : num) (t : string) (e : bool),
    v = VObj [ ("index", VNum i); ("freq", VNum f); ("gain", VNum g);
               ("q", VNum qv); ("type", VStr t); ("enabled", VBool e) ] /\
    nonneg f /\ g <> NaN /\ nonneg qv.

Definition sound_band (v : value) : Prop :=
  exists b, band_of_value v = Some b /\
            nonneg (freq b) /\ gain b <> NaN /\ nonneg (q b).

Section StarLoop.

Variable step : nat -> list ascii -> captures -> cont -> option captures.
Variable k : cont.

(** The loop that [rmatch] runs for [RStar], over the matcher [step] of the
    body. *)
Fixpoint star_loop (fuel : nat) (pos : nat) (s : list ascii) (caps : captures)
    {struct fuel} : option captures :=
  match fuel with
  | O => k pos s caps
  | S fuel' =>
      match step pos s caps
              (fun pos' s' caps' =>
                 if Nat.eqb pos' pos then None
                 else star_loop fuel' pos' s' caps') with
      | Some res => Some res
      | None => k pos s caps
      end
  end.

End StarLoop.

(** What the loop of the [mousedown] handler knows after the bands [seen]:
    either nothing is picked and no handle seen is nearer than 20 pixels, or
    the pick is a seen band nearer than 20 pixels than which no seen handle
    is strictly nearer. *)
Definition pick_inv (x y w h : num) (seen : list Band) (acc : num * num) : Prop :=
  (acc = (Fin (-1), Fin 1000) /\
   forall b, In b seen -> ltb (handle_distance x y w h b) (Fin 20) = false) \/
  (exists b, In b seen /\
     acc = (index b, handle_distance x y w h b) /\
     ltb (handle_distance x y w h b) (Fin 20) = true /\
     forall b', In b' seen ->
       ltb (handle_distance x y w h b') (handle_distance x y w h b) = false).

(** A second band beside the one of [example_state]. *)
Definition two_band_state : State :=
  {| device := Some example_device;
     globalGainState := VNum (Fin (-3));
     eqState := VArr [ VObj [ ("index", VNum (Fin 0)); ("freq", VNum (Fin 1000));
                              ("gain", VNum (Fin 0)); ("q", VNum (Fin 0.75));
                              ("type", VStr "PK"); ("enabled", VBool true) ];
                       VObj [ ("index", VNum (Fin 1)); ("freq", VNum (Fin 4000));
                              ("gain", VNum (Fin 2)); ("q", VNum (Fin 1));
                              ("type", VStr "HSQ"); ("enabled", VBool false) ] ] |}.

End Inputs.

Export Inputs.

(** * Properties *)

Open Scope string_scope.
Open Scope list_scope.

(** ** Real-number and [num] helpers *)

Lemma VNum_Fin_neq (a b : R) : a <> b -> VNum (Fin a) <> VNum (Fin b).
Proof. intros Hab H; injection H; auto. Qed.

(** ** The state store *)

Lemma nth_item_out_of_bounds (items : list value) (i : Z) :
  in_bounds i items = false -> nth_item items i = VUndef.
Proof.
  unfold in_bounds, nth_item. intros H.
  destruct (i <? 0)%Z eqn:Hneg; [reflexivity|].
  apply Z.ltb_ge in Hneg.
  apply andb_false_iff in H. destruct H as [H|H].
  - apply Z.leb_gt in H. lia.
  - apply Z.ltb_ge in H. apply nth_overflow. lia.
Qed.

Lemma setEQ_out_of_bounds (items : list value) (i : Z) (key : string)
    (v : value) (st : State) :
  eqState st = VArr items -> in_bounds i items = false ->
  setEQ i key v st = Some (Throw TypeError).
Proof.
  intros Heq Hout. unfold setEQ. rewrite Heq.
  rewrite (nth_item_out_of_bounds _ _ Hout). reflexivity.
Qed.

(** C1. For a band index outside the bounds of the current EQ sequence,
    whatever the field and the raw value, [updateState] (through [setEQ])
    leaves the EQ state and the global gain as they were; it does so by
    throwing a TypeError: the read [eqState[index]] is undefined and the
    property store on it fails. *)
Theorem updateState_out_of_bounds_throws (items : list value) (index : Z)
    (key : string) (x : raw) (st : State) :
  eqState st = VArr items ->
  in_bounds index items = false ->
  updateState index key x st = Some (Throw TypeError) /\
  state_after st (updateState index key x st) = st.
Proof.
  intros Heq Hout.
  assert (H : updateState index key x st = Some (Throw TypeError)).
  { unfold updateState. apply setEQ_out_of_bounds with (items := items); assumption. }
  rewrite H. split; reflexivity.
Qed.

Lemma updateState_out_of_bounds_witness :
  updateState 10 "gain" (RawStr "3") (initial_state example_freqs)
    = Some (Throw TypeError) /\
  state_after (initial_state example_freqs)
    (updateState 10 "gain" (RawStr "3") (initial_state example_freqs))
    = initial_state example_freqs.
Proof.
  apply (updateState_out_of_bounds_throws (items := default_bands example_freqs)).
  - reflexivity.
  - reflexivity.
Defined.

(** ** Factory reset *)

Section ResetProperties.

Variable DEFAULT_FREQS : list num.

Lemma map_indexed_combine (freqs : list num) (i : nat) :
  map_indexed i freqs =
  map (fun p => default_band (fst p) (snd p))
      (combine (seq i (List.length freqs)) freqs).
Proof.
  revert i. induction freqs as [|f freqs IH]; intros i; simpl.
  - reflexivity.
  - rewrite IH. reflexivity.
Qed.

Lemma reset_confirmed_state (st : State) :
  resetToDefaults DEFAULT_FREQS true st =
  {| device := device st;
     globalGainState := VNum (Fin 0);
     eqState := defaultEqState DEFAULT_FREQS |}.
Proof. reflexivity. Qed.

(** C9 (as amended). For every prior state, once the user has confirmed
    the dialog, [resetToDefaults] replaces the EQ with the canonical band
    set: one band per entry of the frequency table, in order, with its
    position as index, gain 0, q 0.75, type PK and enabled; and it sets the
    global gain to 0.  The result does not depend on the prior EQ or gain,
    and a second confirmed reset returns the identical state.  When the
    user declines, the state is left as it was. *)
Theorem resetToDefaults_confirmed_canonical (st st' : State) :
  eqState (resetToDefaults DEFAULT_FREQS true st) =
    VArr (map (fun p =>
                 VObj [ ("index", VNum (of_Z (Z.of_nat (fst p))));
                        ("freq", VNum (snd p));
                        ("gain", VNum (Fin 0));
                        ("q", VNum (Fin 0.75));
                        ("type", VStr "PK");
                        ("enabled", VBool true) ])
              (combine (seq 0 (List.length DEFAULT_FREQS)) DEFAULT_FREQS)) /\
  globalGainState (resetToDefaults DEFAULT_FREQS true st) = VNum (Fin 0) /\
  eqState (resetToDefaults DEFAULT_FREQS true st') =
    eqState (resetToDefaults DEFAULT_FREQS true st) /\
  globalGainState (resetToDefaults DEFAULT_FREQS true st') =
    globalGainState (resetToDefaults DEFAULT_FREQS true st) /\
  resetToDefaults DEFAULT_FREQS true (resetToDefaults DEFAULT_FREQS true st) =
    resetToDefaults DEFAULT_FREQS true st /\
  resetToDefaults DEFAULT_FREQS false st = st.
Proof.
  rewrite !reset_confirmed_state. simpl.
  repeat split.
  unfold defaultEqState, default_bands.
  rewrite map_indexed_combine. reflexivity.
Qed.

End ResetProperties.

(** C9 as stated fails when the dialog is declined: the custom gain and the
    emptied EQ of the prior state are still there after the call. *)
Lemma resetToDefaults_declined_counterexample :
  exists st : State,
    globalGainState (resetToDefaults example_freqs false st) <> VNum (Fin 0) /\
    eqState (resetToDefaults example_freqs false st) <> defaultEqState example_freqs.
Proof.
  exists {| device := None; globalGainState := VNum (Fin 3); eqState := VArr [] |}.
  simpl. split.
  - apply VNum_Fin_neq. lra.
  - discriminate.
Qed.

(** ** Strings and the JSON reader *)

Lemma chars_str (l : list ascii) : chars (str l) = l.
Proof. apply list_ascii_of_string_of_list_ascii. Qed.

Lemma str_chars (s : string) : str (chars s) = s.
Proof. apply string_of_list_ascii_of_string. Qed.

Lemma drop_while_app_last (p : ascii -> bool) (l : list ascii) (x : ascii) :
  p x = false -> drop_while p (l ++ [x]) = drop_while p l ++ [x].
Proof.
  intros Hx. induction l as [|c l IH]; simpl.
  - rewrite Hx. reflexivity.
  - destruct (p c); [exact IH | reflexivity].
Qed.

Lemma trim_chars_head (x : ascii) (l : list ascii) :
  is_space x = false ->
  trim_chars (x :: l) = x :: rev (drop_while is_space (rev l)).
Proof.
  intros Hx. unfold trim_chars. simpl. rewrite Hx. simpl.
  rewrite drop_while_app_last by exact Hx.
  rewrite rev_app_distr. reflexivity.
Qed.

Lemma trim_chars_skip (c : ascii) (l : list ascii) :
  is_space c = true -> trim_chars (c :: l) = trim_chars l.
Proof. intros Hc. unfold trim_chars. simpl. rewrite Hc. reflexivity. Qed.

Lemma is_json_ws_space (c : ascii) : is_json_ws c = true -> is_space c = true.
Proof.
  unfold is_json_ws. intros H.
  repeat (apply orb_true_iff in H; destruct H as [H|H]);
    apply Ascii.eqb_eq in H; subst c; reflexivity.
Qed.

Lemma emit_head (t t' : token) (r : option (list token)) (ts : list token) :
  option_map (cons t) r = Some (t' :: ts) -> t = t'.
Proof. destruct r; simpl; intros H; inversion H; reflexivity. Qed.

Lemma lex_brace_first (fuel : nat) (l : list ascii) (ts : list token) :
  lex fuel l = Some (TLBrace :: ts) ->
  starts_with (chars "{") (trim_chars l) = true.
Proof.
  revert l. induction fuel as [|fuel IH]; intros l H.
  - destruct l; discriminate.
  - destruct l as [|c l']; [discriminate|].
    simpl in H.
    destruct (is_json_ws c) eqn:Hws.
    { rewrite trim_chars_skip by (apply is_json_ws_space; exact Hws).
      apply IH. exact H. }
    destruct (Ascii.eqb c "{") eqn:Hb.
    { apply Ascii.eqb_eq in Hb. subst c.
      rewrite trim_chars_head by reflexivity. reflexivity. }
    repeat match type of H with
           | (if ?b then _ else _) = _ => destruct b
           | match ?o with Some _ => _ | None => _ end = _ =>
               destruct o as [[? ?]|]
           | option_map _ _ = _ => apply emit_head in H
           end; discriminate.
Qed.

Lemma parse_value_object_first (fuel : nat) (ts rest : list token)
    (props : list (string * value)) :
  parse_value fuel ts = Some (VObj props, rest) ->
  exists ts', ts = TLBrace :: ts'.
Proof.
  destruct fuel as [|fuel]; [discriminate|].
  destruct ts as [|t ts]; [discriminate|].
  destruct t; simpl; intros H; try discriminate.
  - eexists; reflexivity.
  - destruct ts as [|[] ?]; try discriminate;
      destruct (parse_elements fuel _) as [[? ?]|]; discriminate.
Qed.

Lemma JSON_parse_object_starts (s : string) (props : list (string * value)) :
  JSON_parse s = Some (VObj props) -> startsWith (trim s) "{" = true.
Proof.
  unfold JSON_parse, startsWith, trim. rewrite chars_str.
  destruct (lex _ (chars s)) as [ts|] eqn:Hlex; [|discriminate].
  destruct (parse_value _ ts) as [[v rest]|] eqn:Hp; [|discriminate].
  destruct rest; [|discriminate].
  intros H. injection H as ->.
  apply parse_value_object_first in Hp. destruct Hp as [ts' ->].
  eapply lex_brace_first. exact Hlex.
Qed.

Lemma get_prop_absent (k : string) (props : list (string * value)) :
  has_prop k props = false -> get_prop k props = VUndef.
Proof.
  induction props as [|[k' v] props IH]; simpl; [reflexivity|].
  destruct (String.eqb k' k); simpl; [discriminate | exact IH].
Qed.

(** ** Profile import *)

Section ImportProperties.

Variable DEFAULT_FREQS : list num.

Lemma detect_json (content : string) (data : value) :
  JSON_parse content = Some data ->
  startsWith (trim content) "{" = true ->
  detect DEFAULT_FREQS content = profile_of_data data.
Proof.
  intros Hp Hs. unfold detect, parseJsonProfile. rewrite Hs, Hp. reflexivity.
Qed.

(** C4. For every JSON text whose parsed object has no [bands] field,
    profile import fails with the format error, and the EQ state and the
    global gain (the whole store) are left as they were. *)
Theorem import_json_missing_bands (content : string)
    (props : list (string * value)) (st : State) :
  JSON_parse content = Some (VObj props) ->
  has_prop "bands" props = false ->
  importProfile DEFAULT_FREQS content st =
    (st, ImportError (Error "Invalid JSON profile: missing 'bands' property")).
Proof.
  intros Hp Hb. unfold importProfile.
  rewrite (detect_json _ Hp (JSON_parse_object_starts _ Hp)).
  unfold profile_of_data. simpl.
  rewrite (get_prop_absent _ _ Hb). reflexivity.
Qed.

End ImportProperties.

Lemma import_json_missing_bands_witness :
  importProfile example_freqs
    ("{" ++ quote ++ "device" ++ quote ++ ": " ++ quote ++ "x" ++ quote ++ "}")
    (initial_state example_freqs) =
  (initial_state example_freqs,
   ImportError (Error "Invalid JSON profile: missing 'bands' property")).
Proof.
  apply (@import_json_missing_bands example_freqs _ [("device", VStr "x")]).
  - vm_compute. reflexivity.
  - reflexivity.
Defined.

(** ** The text grammar on the specification's example *)

Lemma dec_m80 : dec (-80) (-1) = -8.
Proof. unfold dec. simpl. lra. Qed.

Lemma dec_34 : dec 34 0 = 34.
Proof. unfold dec. simpl. lra. Qed.

Lemma dec_m26 : dec (-26) (-1) = -2.6.
Proof. unfold dec. simpl. lra. Qed.

Lemma dec_800 : dec 800 (-3) = 0.8.
Proof. unfold dec. simpl. lra. Qed.

Lemma parseFloat_literal (s : string) (m e : Z) (r : R) :
  read_literal (chars s) = LitDec m e -> dec m e = r -> parseFloat s = Fin r.
Proof. intros Hl Hd. unfold parseFloat. rewrite Hl. simpl. rewrite Hd. reflexivity. Qed.

Lemma text_step_preamp (acc : text_acc) (line : string) (m : captures) :
  negb (String.eqb (trim line) "") = true ->
  regex_match true preampRegex (trim line) = Some m ->
  text_step acc line = (parseFloat (group 1 m), snd acc).
Proof.
  intros Hne Hm. unfold text_step.
  apply negb_true_iff in Hne. rewrite Hne, Hm. reflexivity.
Qed.

Lemma text_step_filter (acc : text_acc) (line : string) (m : captures) :
  negb (String.eqb (trim line) "") = true ->
  regex_match true preampRegex (trim line) = None ->
  regex_match true filterRegex (trim line) = Some m ->
  text_step acc line = (fst acc, apply_filter m (snd acc)).
Proof.
  intros Hne Hp Hm. unfold text_step.
  apply negb_true_iff in Hne. rewrite Hne, Hp, Hm. reflexivity.
Qed.

Lemma text_step_ignored (acc : text_acc) (line : string) :
  trim line = "" \/
  (regex_match true preampRegex (trim line) = None /\
   regex_match true filterRegex (trim line) = None) ->
  text_step acc line = acc.
Proof.
  unfold text_step. intros [He|[Hp Hf]].
  - rewrite He. reflexivity.
  - rewrite Hp, Hf. destruct (String.eqb _ _); reflexivity.
Qed.

Lemma in_bounds_zero (x : value) (l : list value) : in_bounds 0 (x :: l) = true.
Proof. unfold in_bounds. simpl List.length. apply andb_true_iff. split.
  - reflexivity.
  - apply Z.ltb_lt. lia.
Qed.

Section ExampleImport.

Variable DEFAULT_FREQS : list num.

(** C5. Importing the two-line text of the example into a store whose
    default table has ten entries yields global gain -8 and band 0 equal to
    index 0, freq 34, gain -2.6, q 0.8, type PK, enabled; bands 1 to 9 are
    the default ones. *)
Theorem import_example_text_profile (st : State) :
  List.length DEFAULT_FREQS = 10%nat ->
  snd (importProfile DEFAULT_FREQS example_text st) = Imported /\
  globalGainState (fst (importProfile DEFAULT_FREQS example_text st))
    = VNum (Fin (-8)) /\
  exists bs : list value,
    eqState (fst (importProfile DEFAULT_FREQS example_text st)) = VArr bs /\
    List.length bs = 10%nat /\
    nth 0 bs VUndef =
      VObj [ ("index", VNum (Fin 0)); ("freq", VNum (Fin 34));
             ("gain", VNum (Fin (-2.6))); ("q", VNum (Fin 0.8));
             ("type", VStr "PK"); ("enabled", VBool true) ] /\
    forall i : nat, (1 <= i <= 9)%nat ->
      nth i bs VUndef = nth i (default_bands DEFAULT_FREQS) VUndef.
Proof.
  intros Hlen.
  destruct DEFAULT_FREQS as [|f0 fs] eqn:HF; [discriminate|].
  assert (Hdet : detect (f0 :: fs) example_text
                 = Normal (parseTextProfile (f0 :: fs) example_text)).
  { unfold detect.
    replace (startsWith (trim example_text) "{") with false
      by (vm_compute; reflexivity).
    replace (startsWith (trim example_text) "Preamp:") with true
      by (vm_compute; reflexivity).
    reflexivity. }
  assert (Hparse : parseTextProfile (f0 :: fs) example_text =
            {| globalGain := VNum (Fin (-8));
               bands := VArr
                 (VObj [ ("index", VNum (Fin 0)); ("freq", VNum (Fin 34));
                         ("gain", VNum (Fin (-2.6))); ("q", VNum (Fin 0.8));
                         ("type", VStr "PK"); ("enabled", VBool true) ]
                  :: map_indexed 1 fs) |}).
  { unfold parseTextProfile.
    replace (split_lines example_text)
      with ["Preamp: -8.0 dB"; "Filter 1: ON PK Fc 34 Hz Gain -2.6 dB Q 0.800"]
      by (vm_compute; reflexivity).
    cbn [fold_left].
    rewrite (@text_step_preamp _ "Preamp: -8.0 dB"
               [(1%nat, "-8.0"); (2%nat, ".0")])
      by (vm_compute; reflexivity).
    rewrite (@text_step_filter _ _
               [(6%nat, "0.800"); (5%nat, "-2.6"); (4%nat, "34");
                (3%nat, "PK"); (2%nat, "ON"); (1%nat, "1")])
      by (vm_compute; reflexivity).
    cbn [fst snd]. unfold default_bands. cbn [map_indexed].
    unfold apply_filter.
    replace (parseInt (group 1 _)) with (Some 1%Z) by (vm_compute; reflexivity).
    change (1 - 1)%Z with 0%Z. rewrite in_bounds_zero.
    replace (group 1 [(1%nat, "-8.0"); (2%nat, ".0")]) with "-8.0" by reflexivity.
    replace (toUpperCase (group 2 _)) with "ON" by (vm_compute; reflexivity).
    replace (group 3 _) with "PK" by reflexivity.
    replace (group 4 _) with "34" by reflexivity.
    replace (group 5 _) with "-2.6" by reflexivity.
    replace (group 6 _) with "0.800" by reflexivity.
    rewrite (@parseFloat_literal "-8.0" (-80) (-1) (-8))
      by (try (vm_compute; reflexivity); apply dec_m80).
    rewrite (@parseFloat_literal "34" 34 0 34)
      by (try (vm_compute; reflexivity); apply dec_34).
    rewrite (@parseFloat_literal "-2.6" (-26) (-1) (-2.6))
      by (try (vm_compute; reflexivity); apply dec_m26).
    rewrite (@parseFloat_literal "0.800" 800 (-3) 0.8)
      by (try (vm_compute; reflexivity); apply dec_800).
    reflexivity. }
  unfold importProfile. rewrite Hdet, Hparse. cbn.
  split; [reflexivity|]. split; [reflexivity|].
  eexists. split; [reflexivity|].
  split.
  { simpl. rewrite map_indexed_combine, length_map, length_combine, length_seq.
    simpl in Hlen. rewrite Nat.min_id. exact Hlen. }
  split; [reflexivity|].
  intros i Hi. destruct i as [|i]; [lia|]. reflexivity.
Qed.

End ExampleImport.

Lemma import_example_text_profile_witness :
  snd (importProfile example_freqs example_text (initial_state example_freqs))
    = Imported /\
  globalGainState
    (fst (importProfile example_freqs example_text (initial_state example_freqs)))
    = VNum (Fin (-8)).
Proof.
  destruct (@import_example_text_profile example_freqs
              (initial_state example_freqs) eq_refl) as [H1 [H2 _]].
  split; assumption.
Defined.

(** ** Text import keeps the shape of the default sequence *)

Lemma well_indexed_defaults (freqs : list num) (k : nat) :
  well_indexed k (map_indexed k freqs).
Proof.
  revert k. induction freqs as [|f freqs IH]; intros k; simpl.
  - exact I.
  - split; [|apply IH]. eexists. split; reflexivity.
Qed.

Lemma well_indexed_nth (bs : list value) (k i : nat) :
  well_indexed k bs -> (i < List.length bs)%nat ->
  exists props, nth i bs VUndef = VObj props /\
                get_prop "index" props = VNum (of_Z (Z.of_nat (k + i))).
Proof.
  revert k i. induction bs as [|b bs IH]; intros k i Hw Hi; simpl in *.
  - lia.
  - destruct Hw as [Hb Hw]. destruct i as [|i].
    + rewrite Nat.add_0_r. exact Hb.
    + replace (k + S i)%nat with (S k + i)%nat by lia.
      apply IH; [exact Hw | lia].
Qed.

Lemma length_replace_nth (i : nat) (v : value) (l : list value) :
  List.length (replace_nth i v l) = List.length l.
Proof.
  revert i. induction l as [|x l IH]; intros [|i]; simpl; auto.
Qed.

Lemma well_indexed_replace (bs : list value) (k i : nat) (props : list (string * value)) :
  well_indexed k bs ->
  get_prop "index" props = VNum (of_Z (Z.of_nat (k + i))) ->
  well_indexed k (replace_nth i (VObj props) bs).
Proof.
  revert k i. induction bs as [|b bs IH]; intros k i Hw Hp.
  - destruct i; exact I.
  - destruct Hw as [Hb Hw]. destruct i as [|i]; simpl.
    + split; [|exact Hw]. exists props. rewrite Nat.add_0_r in Hp. auto.
    + split; [exact Hb|]. apply IH; [exact Hw|].
      replace (S k + i)%nat with (k + S i)%nat by lia. exact Hp.
Qed.

Lemma get_prop_set_prop_other (k k' : string) (v : value)
    (props : list (string * value)) :
  String.eqb k' k = false ->
  get_prop k (set_prop k' v props) = get_prop k props.
Proof.
  intros Hk. induction props as [|[k0 v0] props IH]; simpl.
  - rewrite Hk. reflexivity.
  - destruct (String.eqb k0 k') eqn:E0; simpl.
    + apply String.eqb_eq in E0. subst k0. rewrite Hk. reflexivity.
    + destruct (String.eqb k0 k); [reflexivity | exact IH].
Qed.

Lemma apply_filter_shape (m : captures) (bs : list value) :
  well_indexed 0 bs ->
  List.length (apply_filter m bs) = List.length bs /\
  well_indexed 0 (apply_filter m bs).
Proof.
  intros Hw. unfold apply_filter.
  destruct (parseInt (group 1 m)) as [n|]; [|auto].
  destruct (in_bounds (n - 1) bs) eqn:Hb; [|auto].
  split; [apply length_replace_nth|].
  unfold in_bounds in Hb. apply andb_true_iff in Hb. destruct Hb as [H0 H1].
  apply Z.leb_le in H0. apply Z.ltb_lt in H1.
  assert (Hi : (Z.to_nat (n - 1) < List.length bs)%nat) by lia.
  destruct (well_indexed_nth _ 0 Hw Hi) as [props [Hn Hp]].
  unfold nth_item. replace (n - 1 <? 0)%Z with false by (symmetry; apply Z.ltb_ge; lia).
  rewrite Hn. unfold spread_then. cbn [fold_left fst snd].
  apply well_indexed_replace; [exact Hw|].
  rewrite !get_prop_set_prop_other by reflexivity. exact Hp.
Qed.

Lemma text_step_shape (acc : text_acc) (line : string) :
  well_indexed 0 (snd acc) ->
  List.length (snd (text_step acc line)) = List.length (snd acc) /\
  well_indexed 0 (snd (text_step acc line)).
Proof.
  intros Hw. unfold text_step.
  destruct (String.eqb (trim line) ""); [auto|].
  destruct (regex_match true preampRegex (trim line)); [auto|].
  destruct (regex_match true filterRegex (trim line)) as [m|]; [|auto].
  cbn [snd]. apply apply_filter_shape. exact Hw.
Qed.

Lemma fold_text_step_shape (lines : list string) (acc : text_acc) :
  well_indexed 0 (snd acc) ->
  List.length (snd (fold_left text_step lines acc)) = List.length (snd acc) /\
  well_indexed 0 (snd (fold_left text_step lines acc)).
Proof.
  revert acc. induction lines as [|line lines IH]; intros acc Hw; simpl.
  - auto.
  - destruct (text_step_shape acc line Hw) as [Hl Hw'].
    destruct (IH _ Hw') as [Hl2 Hw2]. split; [congruence | exact Hw2].
Qed.

Lemma length_map_indexed (freqs : list num) (k : nat) :
  List.length (map_indexed k freqs) = List.length freqs.
Proof. revert k. induction freqs; intros k; simpl; auto. Qed.

Lemma parseTextProfile_shape (freqs : list num) (content : string) :
  exists bs, bands (parseTextProfile freqs content) = VArr bs /\
             List.length bs = List.length freqs /\
             well_indexed 0 bs.
Proof.
  unfold parseTextProfile.
  pose proof (@fold_text_step_shape (split_lines content)
                (Fin 0, default_bands freqs)
                (well_indexed_defaults freqs 0)) as [Hl Hw].
  destruct (fold_left text_step _ _) as [g bs]. cbn [snd] in *.
  exists bs. split; [reflexivity|]. split; [|exact Hw].
  rewrite Hl. apply length_map_indexed.
Qed.

Section ImportShape.

Variable DEFAULT_FREQS : list num.

Lemma import_json_success (content : string) (props : list (string * value))
    (st : State) :
  JSON_parse content = Some (VObj props) ->
  truthy (get_prop "bands" props) = true ->
  importProfile DEFAULT_FREQS content st =
    (setGlobalGainState
       (if truthy (get_prop "globalGain" props)
        then get_prop "globalGain" props else VNum (Fin 0))
       (setEqState (get_prop "bands" props) st),
     Imported).
Proof.
  intros Hp Hb. unfold importProfile.
  rewrite (detect_json _ _ Hp (JSON_parse_object_starts _ Hp)).
  unfold profile_of_data. simpl. rewrite Hb. reflexivity.
Qed.

(** C10 (as amended). A profile imported from text leaves an EQ sequence
    that has the length of the default-frequency table and in which band
    [i] carries index [i].  A profile imported from JSON stores the [bands]
    value of the file as it is, with whatever length and index fields it
    has. *)
Theorem import_shape_by_format (content : string) (st : State) :
  (startsWith (trim content) "{" = false ->
   snd (importProfile DEFAULT_FREQS content st) = Imported ->
   exists bs : list value,
     eqState (fst (importProfile DEFAULT_FREQS content st)) = VArr bs /\
     List.length bs = List.length DEFAULT_FREQS /\
     forall i : nat, (i < List.length DEFAULT_FREQS)%nat ->
       exists props, nth i bs VUndef = VObj props /\
                     get_prop "index" props = VNum (of_Z (Z.of_nat i))) /\
  (forall props : list (string * value),
     JSON_parse content = Some (VObj props) ->
     truthy (get_prop "bands" props) = true ->
     eqState (fst (importProfile DEFAULT_FREQS content st))
       = get_prop "bands" props).
Proof.
  split.
  - intros Hj. unfold importProfile, detect. rewrite Hj.
    destruct (startsWith (trim content) "Preamp:" || includes content "Filter 1:");
      cbn [fst snd]; [|discriminate].
    intros _.
    destruct (parseTextProfile_shape DEFAULT_FREQS content) as [bs [Hb [Hl Hw]]].
    exists bs. cbn. split; [exact Hb|]. split; [exact Hl|].
    intros i Hi. rewrite <- Hl in Hi.
    exact (well_indexed_nth _ 0 Hw Hi).
  - intros props Hp Hb. rewrite (@import_json_success content props st Hp Hb). reflexivity.
Qed.

End ImportShape.

Lemma import_shape_by_format_witness :
  exists bs : list value,
    eqState (fst (importProfile example_freqs example_text
                    (initial_state example_freqs))) = VArr bs /\
    List.length bs = List.length example_freqs.
Proof.
  destruct (proj1 (@import_shape_by_format example_freqs example_text
                     (initial_state example_freqs)))
    as [bs [H1 [H2 _]]].
  - vm_compute. reflexivity.
  - unfold importProfile, detect.
    replace (startsWith (trim example_text) "{") with false
      by (vm_compute; reflexivity).
    replace (startsWith (trim example_text) "Preamp:") with true
      by (vm_compute; reflexivity).
    reflexivity.
  - exists bs. split; assumption.
Defined.

(** C10 as stated fails for JSON: a file with an empty [bands] array
    empties the sequence, and a file whose only band says index 5 puts a
    band with index 5 at position 0. *)
Lemma import_json_resizes_counterexample :
  eqState (fst (importProfile example_freqs
                  ("{" ++ quote ++ "bands" ++ quote ++ ":[]}")
                  (initial_state example_freqs))) = VArr [] /\
  List.length (@nil value) <> List.length example_freqs /\
  exists props,
    eqState (fst (importProfile example_freqs
                    ("{" ++ quote ++ "bands" ++ quote ++ ":[{" ++ quote ++ "index"
                         ++ quote ++ ":5}]}")
                    (initial_state example_freqs))) = VArr [VObj props] /\
    get_prop "index" props = VNum (Fin (dec 5 0)) /\
    VNum (Fin (dec 5 0)) <> VNum (of_Z 0).
Proof.
  split.
  { rewrite (@import_json_success example_freqs _ [("bands", VArr [])]).
    - reflexivity.
    - vm_compute. reflexivity.
    - reflexivity. }
  split; [discriminate|].
  exists [("index", VNum (Fin (dec 5 0)))].
  split.
  { rewrite (@import_json_success example_freqs _
               [("bands", VArr [VObj [("index", VNum (Fin (dec 5 0)))]])]).
    - reflexivity.
    - vm_compute. reflexivity.
    - reflexivity. }
  split; [reflexivity|].
  apply VNum_Fin_neq. unfold dec. simpl. lra.
Qed.

(** ** Format detection *)

Section FormatDetection.

Variable DEFAULT_FREQS : list num.

Lemma profile_of_data_not_unknown (data : value) :
  profile_of_data data <> Throw unknown_format.
Proof.
  unfold profile_of_data, unknown_format, missing_bands.
  destruct (get data "bands") as [b|e] eqn:Hg.
  - destruct (negb (truthy b)); [discriminate|].
    destruct (get data "globalGain") eqn:Hg2; [discriminate|].
    destruct data; simpl in Hg, Hg2; discriminate.
  - destruct data; simpl in Hg; try discriminate Hg;
      injection Hg as <-; discriminate.
Qed.

Lemma detect_unknown_iff (content : string) :
  detect DEFAULT_FREQS content = Throw unknown_format <->
  startsWith (trim content) "{" = false /\
  startsWith (trim content) "Preamp:" = false /\
  includes content "Filter 1:" = false.
Proof.
  unfold detect, parseJsonProfile. split.
  - destruct (startsWith (trim content) "{").
    + destruct (JSON_parse content) as [data|]; [|discriminate].
      intros H. exfalso. exact (@profile_of_data_not_unknown data H).
    + destruct (startsWith (trim content) "Preamp:"); [discriminate|].
      destruct (includes content "Filter 1:"); [discriminate|]. auto.
  - intros [-> [-> ->]]. reflexivity.
Qed.

(** C6 (as amended). Reading a text profile never fails on a line: a line
    that is blank after trimming, or that matches neither the preamp nor
    the filter pattern, leaves the profile read so far untouched.  Import
    reports an unknown format exactly when the trimmed content does not
    begin with an opening brace, does not begin with [Preamp:], and the
    content does not contain [Filter 1:]; content that passes the second
    or third test, and does not start with a brace, is always imported as
    a text profile. *)
Theorem import_text_detection (content : string) (st : State) :
  (forall (acc : text_acc) (line : string),
     trim line = "" \/
     (regex_match true preampRegex (trim line) = None /\
      regex_match true filterRegex (trim line) = None) ->
     text_step acc line = acc) /\
  (snd (importProfile DEFAULT_FREQS content st)
     = ImportError (Error "Unknown file format") <->
   startsWith (trim content) "{" = false /\
   startsWith (trim content) "Preamp:" = false /\
   includes content "Filter 1:" = false) /\
  (startsWith (trim content) "{" = false ->
   startsWith (trim content) "Preamp:" = true \/
   includes content "Filter 1:" = true ->
   importProfile DEFAULT_FREQS content st =
     (setGlobalGainState (globalGain (parseTextProfile DEFAULT_FREQS content))
        (setEqState (bands (parseTextProfile DEFAULT_FREQS content)) st),
      Imported)).
Proof.
  split; [exact text_step_ignored|]. split.
  - rewrite <- detect_unknown_iff. unfold importProfile.
    destruct (detect DEFAULT_FREQS content) as [p|e]; cbn [snd]; split.
    + discriminate.
    + discriminate.
    + intros H. injection H as ->. reflexivity.
    + intros H. injection H as ->. reflexivity.
  - intros Hj Ht. unfold importProfile, detect. rewrite Hj.
    replace (startsWith (trim content) "Preamp:" || includes content "Filter 1:")
      with true.
    + reflexivity.
    + symmetry. apply orb_true_iff. exact Ht.
Qed.

End FormatDetection.

Lemma import_text_detection_witness :
  text_step (Fin 0, default_bands example_freqs) "# a comment line"
    = (Fin 0, default_bands example_freqs) /\
  snd (importProfile example_freqs example_text (initial_state example_freqs))
    = Imported.
Proof.
  destruct (@import_text_detection example_freqs example_text
              (initial_state example_freqs)) as [H1 [_ H3]].
  split.
  - apply H1. right. split; vm_compute; reflexivity.
  - rewrite H3.
    + reflexivity.
    + vm_compute. reflexivity.
    + left. vm_compute. reflexivity.
Defined.

(** C6 as stated fails: a file whose only line is a well-formed filter
    line for band 2 matches the text grammar, and import rejects it as an
    unknown format. *)
Lemma import_filter2_only_counterexample :
  regex_match true filterRegex (trim "Filter 2: ON PK Fc 100 Hz Gain 1 dB Q 1")
    = Some [ (6%nat, "1"); (5%nat, "1"); (4%nat, "100"); (3%nat, "PK");
             (2%nat, "ON"); (1%nat, "2") ] /\
  importProfile example_freqs "Filter 2: ON PK Fc 100 Hz Gain 1 dB Q 1"
    (initial_state example_freqs)
    = (initial_state example_freqs, ImportError (Error "Unknown file format")).
Proof.
  split.
  - vm_compute. reflexivity.
  - unfold importProfile.
    replace (detect example_freqs "Filter 2: ON PK Fc 100 Hz Gain 1 dB Q 1")
      with (@Throw ProfileData unknown_format).
    + reflexivity.
    + symmetry. apply detect_unknown_iff. repeat split; vm_compute; reflexivity.
Qed.

(** ** JSON round trip *)

Section ValueInduction.

Variable P : value -> Prop.
Hypothesis P_undef : P VUndef.
Hypothesis P_null : P VNull.
Hypothesis P_bool : forall b, P (VBool b).
Hypothesis P_num : forall n, P (VNum n).
Hypothesis P_str : forall s, P (VStr s).
Hypothesis P_arr : forall items, Forall P items -> P (VArr items).
Hypothesis P_obj : forall props, Forall (fun kv => P (snd kv)) props -> P (VObj props).

Fixpoint value_nested_ind (v : value) : P v :=
  match v with
  | VUndef => P_undef
  | VNull => P_null
  | VBool b => P_bool b
  | VNum n => P_num n
  | VStr s => P_str s
  | VArr items =>
      P_arr ((fix all (l : list value) : Forall P l :=
                match l with
                | [] => Forall_nil P
                | x :: l' => Forall_cons x (value_nested_ind x) (all l')
                end) items)
  | VObj props =>
      P_obj ((fix all (l : list (string * value))
                : Forall (fun kv => P (snd kv)) l :=
                match l with
                | [] => Forall_nil _
                | kv :: l' =>
                    Forall_cons (P := fun kv => P (snd kv)) kv
                      (value_nested_ind (snd kv)) (all l')
                end) props)
  end.

End ValueInduction.

Lemma JSON_clone_safe (v : value) : json_safe v = true -> JSON_clone v = v.
Proof.
  induction v using value_nested_ind; simpl; intros Hs;
    try reflexivity; try discriminate.
  - destruct n; try discriminate. reflexivity.
  - f_equal. induction H as [|x l Hx Hl IH]; simpl in *; [reflexivity|].
    apply andb_true_iff in Hs. destruct Hs as [Hs1 Hs2].
    rewrite (Hx Hs1), (IH Hs2). reflexivity.
  - f_equal. induction H as [|[k x] l Hx Hl IH]; simpl in *; [reflexivity|].
    apply andb_true_iff in Hs. destruct Hs as [Hs1 Hs2].
    rewrite (IH Hs2).
    destruct x; simpl in Hs1; try discriminate; rewrite (Hx Hs1); reflexivity.
Qed.

Lemma truthy_finite_or_zero (r : R) :
  (if JsValue.truthy (VNum (Fin r)) then VNum (Fin r) else VNum (Fin 0))
  = VNum (Fin r).
Proof.
  simpl. destruct (Req_dec_T r 0) as [->|_]; reflexivity.
Qed.

Section RoundTrip.

Variable DEFAULT_FREQS : list num.

(** C3 (as amended). Take a state with a device connected, whose band
    sequence is an array that holds no undefined value and only finite
    numbers, and whose global gain is a finite number.  Whatever text
    [JSON.parse] reads back as the serialised export object, importing it
    succeeds and yields a band sequence and a global gain equal to the
    exported ones. *)
Theorem export_import_roundtrip (now content : string) (st st0 : State)
    (data : value) (items : list value) (r : R) :
  exportProfile now st = Some data ->
  eqState st = VArr items ->
  json_safe (eqState st) = true ->
  globalGainState st = VNum (Fin r) ->
  JSON_parse content = Some (JSON_clone data) ->
  snd (importProfile DEFAULT_FREQS content st0) = Imported /\
  eqState (fst (importProfile DEFAULT_FREQS content st0)) = eqState st /\
  globalGainState (fst (importProfile DEFAULT_FREQS content st0))
    = globalGainState st.
Proof.
  intros Hex Heq Hsafe Hg Hp.
  unfold exportProfile in Hex.
  destruct (device st) as [d|]; [|discriminate].
  injection Hex as <-.
  assert (Hc : JSON_clone (eqState st) = eqState st)
    by (apply JSON_clone_safe; exact Hsafe).
  rewrite Hg, Heq in Hp. rewrite Heq in Hc.
  change (JSON_parse content =
          Some (VObj [ ("device", VStr "JM98MAX"); ("timestamp", VStr now);
                       ("globalGain", VNum (Fin r));
                       ("bands", JSON_clone (VArr items)) ])) in Hp.
  rewrite Hc in Hp.
  rewrite (@import_json_success DEFAULT_FREQS content _ st0 Hp) by reflexivity.
  rewrite Heq, Hg.
  split; [reflexivity|]. split; [reflexivity|].
  cbn [fst globalGainState setGlobalGainState].
  change (get_prop "globalGain" _) with (VNum (Fin r)).
  apply truthy_finite_or_zero.
Qed.

End RoundTrip.

Lemma example_json_parses :
  JSON_parse example_json =
  Some (JSON_clone
          (VObj [ ("device", VStr "JM98MAX");
                  ("timestamp", VStr "2024-01-01T00:00:00.000Z");
                  ("globalGain", globalGainState example_state);
                  ("bands", eqState example_state) ])).
Proof.
  transitivity
    (Some (VObj [ ("device", VStr "JM98MAX");
                  ("timestamp", VStr "2024-01-01T00:00:00.000Z");
                  ("globalGain", VNum (Fin (dec (-3) 0)));
                  ("bands",
                   VArr [ VObj [ ("index", VNum (Fin (dec 0 0)));
                                 ("freq", VNum (Fin (dec 1000 0)));
                                 ("gain", VNum (Fin (dec 0 0)));
                                 ("q", VNum (Fin (dec 75 (-2))));
                                 ("type", VStr "PK");
                                 ("enabled", VBool true) ] ]) ])).
  - vm_compute. reflexivity.
  - replace (dec (-3) 0) with (-3) by (unfold dec; simpl; lra).
    replace (dec 0 0) with 0 by (unfold dec; simpl; lra).
    replace (dec 1000 0) with 1000 by (unfold dec; simpl; lra).
    replace (dec 75 (-2)) with 0.75 by (unfold dec; simpl; lra).
    reflexivity.
Qed.

Lemma export_import_roundtrip_witness :
  eqState (fst (importProfile example_freqs example_json
                  (initial_state example_freqs))) = eqState example_state /\
  globalGainState (fst (importProfile example_freqs example_json
                          (initial_state example_freqs)))
    = globalGainState example_state.
Proof.
  destruct (@export_import_roundtrip example_freqs "2024-01-01T00:00:00.000Z"
              example_json example_state (initial_state example_freqs)
              _ _ (-3) eq_refl eq_refl eq_refl eq_refl example_json_parses)
    as [_ H].
  exact H.
Defined.

(** C3 as stated fails for a state that holds NaN.  Clearing the gain
    field of band 0 stores NaN ([parseFloat] of the empty string); the
    export carries null in its place, and the imported band sequence
    differs from the exported one. *)
Lemma export_import_nan_counterexample :
  exists (st : State) (data : value) (p : ProfileData),
    st = state_after example_state
           (updateState 0 "gain" (RawStr "") example_state) /\
    exportProfile "2024-01-01T00:00:00.000Z" st = Some data /\
    profile_of_data (JSON_clone data) = Normal p /\
    bands p <> eqState st.
Proof.
  assert (Hu : updateState 0 "gain" (RawStr "") example_state =
               Some (Normal
                 {| device := Some example_device;
                    globalGainState := VNum (Fin (-3));
                    eqState := VArr
                      [ VObj [ ("index", VNum (Fin 0)); ("freq", VNum (Fin 1000));
                               ("gain", VNum NaN); ("q", VNum (Fin 0.75));
                               ("type", VStr "PK"); ("enabled", VBool true) ] ] |})).
  { unfold updateState. cbn [String.eqb Ascii.eqb Bool.eqb orb].
    replace (parseFloat_raw (RawStr "")) with NaN by (vm_compute; reflexivity).
    reflexivity. }
  eexists. eexists. eexists.
  split; [reflexivity|]. rewrite Hu. cbn [state_after].
  split; [reflexivity|].
  split.
  - unfold profile_of_data. cbn. reflexivity.
  - cbn. intros H. discriminate H.
Qed.

(** ** Filter math: arithmetic on finite numbers *)

Lemma div_Fin (a b : R) : b <> 0 -> JsNum.div (Fin a) (Fin b) = Fin (a / b).
Proof. intros Hb. unfold JsNum.div. destruct (Req_dec_T b 0); [contradiction|reflexivity]. Qed.

Lemma add_zero_r (x : num) : JsNum.add x (Fin 0) = x.
Proof. destruct x; simpl; try reflexivity. f_equal. lra. Qed.

Lemma log10_Fin (r : R) : 0 < r -> Math_log10 (Fin r) = Fin (ln r / ln 10).
Proof.
  intros Hr. unfold Math_log10.
  destruct (Rlt_dec r 0); [lra|]. destruct (Req_dec_T r 0); [lra|]. reflexivity.
Qed.

Lemma quad_mag_alt (c0 c1 c2 w : R) :
  quad_mag c0 c1 c2 w =
  ((c0 + c2) * cos w + c1) * ((c0 + c2) * cos w + c1) +
  ((c0 - c2) * sin w) * ((c0 - c2) * sin w).
Proof.
  unfold quad_mag. rewrite cos_2a, sin_2a.
  pose proof (sin2_cos2 w) as H. unfold Rsqr in H.
  set (S := sin w) in *. set (C := cos w) in *.
  assert (HS : S * S = 1 - C * C) by lra.
  replace ((c0 + c1 * C + c2 * (C * C - S * S)) * (c0 + c1 * C + c2 * (C * C - S * S)) +
           - (c1 * S + c2 * (2 * S * C)) * - (c1 * S + c2 * (2 * S * C)))
    with ((c0 + c1 * C + c2 * (C * C - (S * S))) * (c0 + c1 * C + c2 * (C * C - (S * S))) +
          (S * S) * ((c1 + 2 * c2 * C) * (c1 + 2 * c2 * C))) by ring.
  replace (((c0 + c2) * C + c1) * ((c0 + c2) * C + c1) + (c0 - c2) * S * ((c0 - c2) * S))
    with (((c0 + c2) * C + c1) * ((c0 + c2) * C + c1) + (S * S) * ((c0 - c2) * (c0 - c2)))
    by ring.
  rewrite HS. ring.
Qed.

Lemma quad_mag_nonneg (c0 c1 c2 w : R) : 0 <= quad_mag c0 c1 c2 w.
Proof.
  unfold quad_mag.
  set (x := c0 + c1 * cos w + c2 * cos (2 * w)).
  set (y := - (c1 * sin w + c2 * sin (2 * w))).
  pose proof (Rle_0_sqr x). pose proof (Rle_0_sqr y). unfold Rsqr in *. lra.
Qed.

Lemma quad_mag_nonzero (c0 c1 c2 w : R) :
  c0 <> c2 -> c0 + c2 + c1 <> 0 -> c0 + c2 - c1 <> 0 ->
  quad_mag c0 c1 c2 w <> 0.
Proof.
  intros H02 Hp Hm Hz. rewrite quad_mag_alt in Hz.
  pose proof (sin2_cos2 w) as H. unfold Rsqr in H.
  set (S := sin w) in *. set (C := cos w) in *.
  destruct (Rplus_sqr_eq_0 ((c0 + c2) * C + c1) ((c0 - c2) * S) Hz) as [Hc Hs].
  assert (HS : S = 0).
  { apply Rmult_integral in Hs. destruct Hs as [Hs|Hs]; [lra | exact Hs]. }
  assert (HC : C = 1 \/ C = -1).
  { assert (HCC : (C - 1) * (C + 1) = 0) by nra.
    apply Rmult_integral in HCC. destruct HCC; [left | right]; lra. }
  destruct HC as [HC|HC]; rewrite HC in Hc; lra.
Qed.

Lemma quad_mag_pos (c0 c1 c2 w : R) :
  c0 <> c2 -> c0 + c2 + c1 <> 0 -> c0 + c2 - c1 <> 0 ->
  0 < quad_mag c0 c1 c2 w.
Proof.
  intros H1 H2 H3.
  pose proof (quad_mag_nonneg c0 c1 c2 w).
  pose proof (@quad_mag_nonzero c0 c1 c2 w H1 H2 H3). lra.
Qed.

(** The value [getMagnitude] returns for one filter with finite
    coefficients, when neither squared modulus vanishes. *)
Lemma getMagnitude_single (cb0 cb1 cb2 ca1 ca2 f s : R) :
  s <> 0 ->
  0 < quad_mag cb0 cb1 cb2 (2 * PI * f / s) ->
  0 < quad_mag 1 ca1 ca2 (2 * PI * f / s) ->
  getMagnitude (Fin f)
    [ {| b0 := Fin cb0; b1 := Fin cb1; b2 := Fin cb2;
         a1 := Fin ca1; a2 := Fin ca2 |} ] (Fin s)
  = Fin (0 + 10 * (ln (quad_mag cb0 cb1 cb2 (2 * PI * f / s) /
                       quad_mag 1 ca1 ca2 (2 * PI * f / s)) / ln 10)).
Proof.
  intros Hs HN HD.
  unfold getMagnitude, Math_PI.
  cbn [JsNum.mul]. rewrite (div_Fin _ Hs).
  cbn [Math_cos Math_sin JsNum.mul fold_left].
  unfold section_db. cbn [b0 b1 b2 a1 a2 JsNum.mul JsNum.add JsNum.neg].
  fold (quad_mag cb0 cb1 cb2 (2 * PI * f / s)).
  fold (quad_mag 1 ca1 ca2 (2 * PI * f / s)).
  rewrite div_Fin by lra.
  rewrite log10_Fin by (apply Rdiv_lt_0_compat; assumption).
  reflexivity.
Qed.

(** ** Flat bands *)

Lemma section_db_identity (c1 c2 s1 s2 : R) :
  section_db (Fin c1) (Fin c2) (Fin s1) (Fin s2) identity_filter = Fin 0.
Proof.
  unfold section_db, identity_filter.
  cbn [b0 b1 b2 a1 a2 JsNum.mul JsNum.add JsNum.neg].
  replace ((1 + 0 * c1 + 0 * c2) * (1 + 0 * c1 + 0 * c2) +
           - (0 * s1 + 0 * s2) * - (0 * s1 + 0 * s2)) with 1 by ring.
  rewrite div_Fin by lra. rewrite log10_Fin by lra.
  cbn [JsNum.mul]. f_equal.
  replace (1 / 1) with 1 by field. rewrite ln_1. unfold Rdiv. ring.
Qed.

Lemma calculateBiquad_disabled (band : Band) (sampleRate : num) :
  enabled band = false -> calculateBiquad band sampleRate = identity_filter.
Proof. intros H. unfold calculateBiquad. rewrite H. reflexivity. Qed.

Lemma calculateBiquad_unrecognized (band : Band) (sampleRate : num) :
  type band <> "PK" -> type band <> "LSQ" -> type band <> "HSQ" ->
  calculateBiquad band sampleRate = identity_filter.
Proof.
  intros H1 H2 H3. unfold calculateBiquad.
  destruct (enabled band); [|reflexivity]. cbn [negb].
  apply String.eqb_neq in H1, H2, H3. rewrite H1, H2, H3.
  cbv zeta. cbn [JsNum.div].
  unfold identity_filter.
  destruct (Req_dec_T 1 0); [lra|].
  replace (1 / 1) with 1 by field. replace (0 / 1) with 0 by field.
  reflexivity.
Qed.

Lemma getMagnitude_skip_identity (f s : R) (before after : list Coeffs) :
  s <> 0 ->
  getMagnitude (Fin f) (before ++ identity_filter :: after) (Fin s)
  = getMagnitude (Fin f) (before ++ after) (Fin s).
Proof.
  intros Hs. unfold getMagnitude, Math_PI.
  cbn [JsNum.mul]. rewrite (div_Fin _ Hs). cbn [Math_cos Math_sin JsNum.mul].
  rewrite !fold_left_app. cbn [fold_left].
  rewrite section_db_identity, add_zero_r. reflexivity.
Qed.

(** C7. A band that is disabled, or whose type is none of the recognized
    tags PK, LSQ, HSQ, gets the identity filter (1, 0, 0, 0, 0), and its
    contribution to the cascaded magnitude is exactly 0 dB at every
    frequency: alone it yields 0, and inside any cascade it can be left
    out without changing the total. *)
Theorem flat_band_contributes_nothing (band : Band) (sampleRate : num)
    (f s : R) (before after : list Coeffs) :
  enabled band = false \/
    (type band <> "PK" /\ type band <> "LSQ" /\ type band <> "HSQ") ->
  s <> 0 ->
  calculateBiquad band sampleRate
    = {| b0 := Fin 1; b1 := Fin 0; b2 := Fin 0; a1 := Fin 0; a2 := Fin 0 |} /\
  getMagnitude (Fin f) [calculateBiquad band sampleRate] (Fin s) = Fin 0 /\
  getMagnitude (Fin f) (before ++ calculateBiquad band sampleRate :: after) (Fin s)
    = getMagnitude (Fin f) (before ++ after) (Fin s).
Proof.
  intros Hflat Hs.
  assert (Hid : calculateBiquad band sampleRate = identity_filter).
  { destruct Hflat as [Hd|[H1 [H2 H3]]].
    - apply calculateBiquad_disabled. exact Hd.
    - apply calculateBiquad_unrecognized; assumption. }
  rewrite Hid. split; [reflexivity|]. split.
  - exact (@getMagnitude_skip_identity f s [] [] Hs).
  - apply getMagnitude_skip_identity. exact Hs.
Qed.

Lemma flat_band_contributes_nothing_witness :
  calculateBiquad
    {| index := Fin 0; freq := Fin 1000; gain := Fin 6; q := Fin 0;
       type := "LS"; enabled := true |} default_sampleRate
    = {| b0 := Fin 1; b1 := Fin 0; b2 := Fin 0; a1 := Fin 0; a2 := Fin 0 |} /\
  getMagnitude (Fin 1000)
    [calculateBiquad
       {| index := Fin 0; freq := Fin 1000; gain := Fin 6; q := Fin 0;
          type := "LS"; enabled := true |} default_sampleRate] (Fin 48000)
    = Fin 0.
Proof.
  destruct (@flat_band_contributes_nothing
              {| index := Fin 0; freq := Fin 1000; gain := Fin 6; q := Fin 0;
                 type := "LS"; enabled := true |}
              default_sampleRate 1000 48000 [] [])
    as [H1 [H2 _]].
  - right. repeat split; discriminate.
  - lra.
  - split; assumption.
Defined.

(** ** Recognized filter types below the Nyquist frequency *)

Lemma Math_pow_10 (e : R) : Math_pow (Fin 10) (Fin e) = Fin (Rpower 10 e).
Proof.
  unfold Math_pow. destruct (Req_dec_T e 0) as [->|_].
  - rewrite Rpower_O by lra. reflexivity.
  - destruct (Req_dec_T 10 0); [lra|]. destruct (Rlt_dec 0 10); [reflexivity|lra].
Qed.

Lemma Rpower_pos (x y : R) : 0 < Rpower x y.
Proof. unfold Rpower. apply exp_pos. Qed.

Lemma sqrt_Fin (a : R) : 0 < a -> Math_sqrt (Fin a) = Fin (sqrt a).
Proof. intros Ha. unfold Math_sqrt. destruct (Rlt_dec a 0); [lra|reflexivity]. Qed.

Lemma angle_below_nyquist (fv sr : R) :
  0 < fv -> fv < sr / 2 -> 0 < 2 * PI * fv / sr < PI.
Proof.
  intros Hf Hn. assert (Hsr : 0 < sr) by lra.
  pose proof PI_RGT_0 as Hpi.
  replace (2 * PI * fv / sr) with (PI * (2 * fv / sr)) by (field; lra).
  assert (H0 : 0 < 2 * fv / sr) by (apply Rdiv_lt_0_compat; lra).
  assert (H1 : 2 * fv / sr < 1).
  { apply Rmult_lt_reg_r with sr; [exact Hsr|].
    replace (2 * fv / sr * sr) with (2 * fv) by (field; lra). lra. }
  split; nra.
Qed.

Lemma sin_cos_inside (W : R) :
  0 < W < PI -> 0 < sin W /\ -1 < cos W < 1.
Proof.
  intros [H0 H1]. pose proof (sin_gt_0 W H0 H1) as Hs.
  pose proof (sin2_cos2 W) as H. unfold Rsqr in H.
  split; [exact Hs|]. split; nra.
Qed.



(** The parameters that [calculateBiquad] derives from a band, for finite
    inputs with a nonzero sample rate and a nonzero q. *)
Lemma biquad_core (band : Band) (fv g qv sr : R) :
  freq band = Fin fv -> gain band = Fin g -> q band = Fin qv ->
  sr <> 0 -> qv <> 0 ->
  (Fin 2 * Math_PI * freq band / Fin sr)%num = Fin (2 * PI * fv / sr) /\
  (Math_sin (Fin (2 * PI * fv / sr)) / (Fin 2 * q band))%num
    = Fin (sin (2 * PI * fv / sr) / (2 * qv)) /\
  Math_pow (Fin 10) (gain band / Fin 40)%num = Fin (Rpower 10 (g / 40)).
Proof.
  intros Hf Hg Hq Hsr Hqv. rewrite Hf, Hg, Hq. unfold Math_PI.
  cbn [JsNum.mul Math_sin]. rewrite !div_Fin by lra.
  rewrite Math_pow_10. auto.
Qed.





(** ** Where the formulas divide by zero *)











(** ** Valid bands never divide by zero *)

Ltac biquad_setup band fv g qv sr He Ht Hf Hg Hq Hqv Hfv Hny :=
  destruct (sin_cos_inside (angle_below_nyquist Hfv Hny)) as [Hsin [Hc1 Hc2]];
  destruct (@biquad_core band fv g qv sr Hf Hg Hq) as [Hw [Ha HA]]; try lra;
  pose proof (Rpower_pos 10 (g / 40)) as HApos;
  assert (Halpha : 0 < sin (2 * PI * fv / sr) / (2 * qv))
    by (apply Rdiv_lt_0_compat; lra);
  unfold calculateBiquad; rewrite He, Ht;
  cbn [negb String.eqb Ascii.eqb Bool.eqb];
  rewrite Hw, Ha, HA; cbv zeta;
  rewrite ?sqrt_Fin by exact HApos;
  cbn [JsNum.mul JsNum.add JsNum.sub JsNum.neg Math_cos];
  pose proof (sqrt_lt_R0 _ HApos) as Hsq;
  set (alpha := sin (2 * PI * fv / sr) / (2 * qv)) in *;
  set (c := cos (2 * PI * fv / sr)) in *;
  set (A := Rpower 10 (g / 40)) in *;
  set (rA := sqrt A) in *;
  assert (Hsa : 0 < 2 * rA * alpha) by nra;
  set (sa := 2 * rA * alpha) in *;
  assert (H1 : 0 < A * (1 + c)) by (apply Rmult_lt_0_compat; lra);
  assert (H2 : 0 < A * (1 - c)) by (apply Rmult_lt_0_compat; lra);
  assert (H3 : 0 < A * (A * (1 - c))) by (apply Rmult_lt_0_compat; lra);
  assert (H4 : 0 < A * (A * (1 + c))) by (apply Rmult_lt_0_compat; lra);
  assert (H5 : 0 < A * sa) by (apply Rmult_lt_0_compat; lra).


Section ValidBand.

Variables (band : Band) (fv g qv sr : R).
Hypothesis Hf : freq band = Fin fv.
Hypothesis Hg : gain band = Fin g.
Hypothesis Hq : q band = Fin qv.
Hypothesis Hqv : 0 < qv.
Hypothesis Hfv : 0 < fv.
Hypothesis Hny : fv < sr / 2.






End ValidBand.



(** * Further properties of the code *)

(** ** The cascade sum *)


Lemma add_assoc (x y z : num) :
  JsNum.add (JsNum.add x y) z = JsNum.add x (JsNum.add y z).
Proof. destruct x, y, z; simpl; try reflexivity. f_equal. ring. Qed.

Lemma add_zero_l (x : num) : JsNum.add (Fin 0) x = x.
Proof. destruct x; simpl; try reflexivity. f_equal. ring. Qed.

Lemma fold_add_shift (h : Coeffs -> num) (l : list Coeffs) (z : num) :
  fold_left (fun t c => JsNum.add t (h c)) l z
  = JsNum.add z (fold_left (fun t c => JsNum.add t (h c)) l (Fin 0)).
Proof.
  revert z. induction l as [|c l IH]; intros z; cbn [fold_left].
  - symmetry. apply add_zero_r.
  - rewrite IH. rewrite (IH (JsNum.add (Fin 0) (h c))).
    rewrite add_zero_l. apply add_assoc.
Qed.


Lemma getMagnitude_split (f s : num) (l1 l2 : list Coeffs) :
  getMagnitude f (l1 ++ l2) s
  = JsNum.add (getMagnitude f l1 s) (getMagnitude f l2 s).
Proof.
  unfold getMagnitude. rewrite fold_left_app.
  apply (fold_add_shift (section_db _ _ _ _)).
Qed.




(** ** The shape of the three filter types *)

Lemma ln10_pos : 0 < ln 10.
Proof. rewrite <- ln_1. apply ln_increasing; lra. Qed.


Lemma quad_mag_scaled (x0 x1 x2 y0 w : R) :
  y0 <> 0 ->
  quad_mag (x0 / y0) (x1 / y0) (x2 / y0) w = quad_mag x0 x1 x2 w / (y0 * y0).
Proof. intros Hy. unfold quad_mag. field. exact Hy. Qed.




(** The value of [getMagnitude] for one filter whose coefficients are the
    raw [x] and [y] triples divided by [y0]. *)
Lemma getMagnitude_normalised (x0 x1 x2 y0 y1 y2 f s : R) :
  s <> 0 -> y0 <> 0 ->
  0 < quad_mag x0 x1 x2 (2 * PI * f / s) ->
  0 < quad_mag y0 y1 y2 (2 * PI * f / s) ->
  getMagnitude (Fin f)
    [ {| b0 := Fin (x0 / y0); b1 := Fin (x1 / y0); b2 := Fin (x2 / y0);
         a1 := Fin (y1 / y0); a2 := Fin (y2 / y0) |} ] (Fin s)
  = Fin (10 * (ln (quad_mag x0 x1 x2 (2 * PI * f / s) /
                   quad_mag y0 y1 y2 (2 * PI * f / s)) / ln 10)).
Proof.
  intros Hs Hy HN HD.
  assert (Hyy : 0 < y0 * y0) by nra.
  assert (E1 : quad_mag 1 (y1 / y0) (y2 / y0) (2 * PI * f / s)
               = quad_mag y0 y1 y2 (2 * PI * f / s) / (y0 * y0)).
  { replace 1 with (y0 / y0) by (field; exact Hy). apply quad_mag_scaled. exact Hy. }
  rewrite getMagnitude_single.
  - f_equal. rewrite Rplus_0_l. rewrite E1, quad_mag_scaled by exact Hy.
    do 3 f_equal. field. split; lra.
  - exact Hs.
  - rewrite quad_mag_scaled by exact Hy. apply Rdiv_lt_0_compat; assumption.
  - rewrite E1. apply Rdiv_lt_0_compat; assumption.
Qed.



Lemma db_of_one : 10 * (ln 1 / ln 10) = 0.
Proof. rewrite ln_1. unfold Rdiv. ring. Qed.








Lemma peak_response (band : Band) (fv g qv sr f s : R) :
  enabled band = true -> type band = "PK" ->
  freq band = Fin fv -> gain band = Fin g -> q band = Fin qv ->
  0 < qv -> 0 < fv -> fv < sr / 2 -> s <> 0 ->
  let alpha := sin (2 * PI * fv / sr) / (2 * qv) in
  let A := Rpower 10 (g / 40) in
  let c := cos (2 * PI * fv / sr) in
  let w := 2 * PI * f / s in
  0 < quad_mag (1 + alpha * A) (-2 * c) (1 - alpha * A) w /\
  0 < quad_mag (1 + alpha / A) (-2 * c) (1 - alpha / A) w /\
  getMagnitude (Fin f) [calculateBiquad band (Fin sr)] (Fin s)
  = Fin (10 * (ln (quad_mag (1 + alpha * A) (-2 * c) (1 - alpha * A) w /
                   quad_mag (1 + alpha / A) (-2 * c) (1 - alpha / A) w)
               / ln 10)).
Proof.
  intros He Ht Hf Hg Hq Hqv Hfv Hny Hs. cbv zeta.
  biquad_setup band fv g qv sr He Ht Hf Hg Hq Hqv Hfv Hny.
  assert (H6 : 0 < alpha * A) by (apply Rmult_lt_0_compat; lra).
  assert (H7 : 0 < alpha / A) by (apply Rdiv_lt_0_compat; lra).
  rewrite (@div_Fin alpha A) by lra.
  cbn [JsNum.mul JsNum.add JsNum.sub JsNum.neg].
  replace (1 + - (alpha * A)) with (1 - alpha * A) by ring.
  replace (1 + - (alpha / A)) with (1 - alpha / A) by ring.
  replace (- (2) * c) with (-2 * c) by ring.
  assert (HN : 0 < quad_mag (1 + alpha * A) (-2 * c) (1 - alpha * A) (2 * PI * f / s))
    by (apply quad_mag_pos; lra).
  assert (HD : 0 < quad_mag (1 + alpha / A) (-2 * c) (1 - alpha / A) (2 * PI * f / s))
    by (apply quad_mag_pos; lra).
  split; [exact HN|]. split; [exact HD|].
  rewrite !div_Fin by lra.
  apply getMagnitude_normalised; try assumption; lra.
Qed.

Lemma peak_zero_gain_section (band : Band) (fv qv sr f s : R) :
  enabled band = true -> type band = "PK" -> gain band = Fin 0 ->
  freq band = Fin fv -> q band = Fin qv ->
  0 < qv -> 0 < fv -> fv < sr / 2 -> s <> 0 ->
  getMagnitude (Fin f) [calculateBiquad band (Fin sr)] (Fin s) = Fin 0.
Proof.
  intros He Ht Hg Hf Hq Hqv Hfv Hny Hs.
  destruct (@peak_response band fv 0 qv sr f s He Ht Hf Hg Hq Hqv Hfv Hny Hs)
    as [HN [HD E]].
  rewrite E. f_equal.
  replace (Rpower 10 (0 / 40)) with 1 in *
    by (replace (0 / 40) with 0 by field; symmetry; apply Rpower_O; lra).
  set (alpha := sin (2 * PI * fv / sr) / (2 * qv)) in *.
  replace (alpha * 1) with (alpha / 1) in * by field.
  replace (quad_mag (1 + alpha / 1) (-2 * cos (2 * PI * fv / sr)) (1 - alpha / 1)
             (2 * PI * f / s) /
           quad_mag (1 + alpha / 1) (-2 * cos (2 * PI * fv / sr)) (1 - alpha / 1)
             (2 * PI * f / s)) with 1 by (field; lra).
  apply db_of_one.
Qed.







(** ** Axis maps, dragging and the drawn curve *)

Lemma log10_20 : Math_log10 (Fin 20) = Fin (ln 20 / ln 10).
Proof. apply log10_Fin. lra. Qed.

Lemma log10_20000 : Math_log10 (Fin 20000) = Fin (ln 20000 / ln 10).
Proof. apply log10_Fin. lra. Qed.

Lemma log_span_pos : 0 < ln 20000 / ln 10 - ln 20 / ln 10.
Proof.
  pose proof ln10_pos as H10.
  assert (H : ln 20 < ln 20000) by (apply ln_increasing; lra).
  unfold Rdiv. assert (0 < / ln 10) by (apply Rinv_0_lt_compat; exact H10). nra.
Qed.

Lemma Rpower10_log (x : R) : 0 < x -> Rpower 10 (ln x / ln 10) = x.
Proof.
  intros Hx. pose proof ln10_pos. unfold Rpower.
  replace (ln x / ln 10 * ln 10) with (ln x) by (field; lra).
  apply exp_ln. exact Hx.
Qed.

Lemma xToFreq_Fin (x w : R) :
  w <> 80 ->
  xToFreq (Fin x) (Fin w) =
  Fin (Rpower 10 (ln 20 / ln 10
                  + (x - 40) / (w - 2 * 40) * (ln 20000 / ln 10 - ln 20 / ln 10))).
Proof.
  intros Hw. unfold xToFreq, CONFIG. cbn [minFreq maxFreq padding].
  rewrite log10_20, log10_20000.
  cbn [JsNum.sub JsNum.mul JsNum.add JsNum.neg].
  rewrite div_Fin by lra.
  cbn [JsNum.sub JsNum.mul JsNum.add JsNum.neg].
  rewrite Math_pow_10. reflexivity.
Qed.


Lemma gainToY_Fin (g h : R) :
  gainToY (Fin g) (Fin h) = Fin (h / 2 - g / 20 * (h / 2 - 40)).
Proof.
  unfold gainToY, CONFIG. cbn [gainRange padding].
  rewrite !div_Fin by lra. reflexivity.
Qed.

Lemma yToGain_Fin (y h : R) :
  h <> 80 -> yToGain (Fin y) (Fin h) = Fin (- (y - h / 2) * 20 / (h / 2 - 40)).
Proof.
  intros Hh. unfold yToGain, CONFIG. cbn [gainRange padding].
  rewrite (@div_Fin h 2) by lra.
  cbn [JsNum.sub JsNum.mul JsNum.add JsNum.neg].
  rewrite div_Fin by lra. reflexivity.
Qed.



Lemma xToFreq_range (x w : R) :
  80 < w -> 40 <= x <= w - 40 ->
  exists F : R, xToFreq (Fin x) (Fin w) = Fin F /\ 20 <= F <= 20000.
Proof.
  intros Hw [Hx1 Hx2].
  pose proof log_span_pos as Hspan.
  rewrite xToFreq_Fin by lra. eexists. split; [reflexivity|].
  set (r := (x - 40) / (w - 2 * 40)).
  set (D := ln 20000 / ln 10 - ln 20 / ln 10) in *.
  assert (Hr0 : 0 <= r).
  { unfold r. apply Rmult_le_pos; [lra|]. left. apply Rinv_0_lt_compat. lra. }
  assert (Hr1 : r <= 1).
  { unfold r. apply Rmult_le_reg_r with (r := w - 2 * 40); [lra|].
    replace ((x - 40) / (w - 2 * 40) * (w - 2 * 40)) with (x - 40) by (field; lra).
    lra. }
  assert (H20 : Rpower 10 (ln 20 / ln 10) = 20) by (apply Rpower10_log; lra).
  assert (H20k : Rpower 10 (ln 20000 / ln 10) = 20000) by (apply Rpower10_log; lra).
  split.
  - apply Rle_trans with (Rpower 10 (ln 20 / ln 10)); [lra|].
    apply Rle_Rpower; [lra|]. nra.
  - apply Rle_trans with (Rpower 10 (ln 20000 / ln 10)); [|lra].
    apply Rle_Rpower; [lra|]. unfold D in *. nra.
Qed.

Lemma round_between (a b : Z) (r : R) :
  IZR a <= r <= IZR b -> (a <= Int_part (r + 1 / 2) <= b)%Z.
Proof.
  intros [Ha Hb].
  destruct (base_Int_part (r + 1 / 2)) as [H1 H2].
  split.
  - assert (H : IZR (a - 1) < IZR (Int_part (r + 1 / 2))) by (rewrite minus_IZR; lra).
    apply lt_IZR in H. lia.
  - assert (H : IZR (Int_part (r + 1 / 2)) < IZR (b + 1)) by (rewrite plus_IZR; lra).
    apply lt_IZR in H. lia.
Qed.

Lemma clamp_Fin (lo hi v : R) :
  lo <= hi ->
  exists c : R, Math_max (Fin lo) (Math_min (Fin hi) (Fin v)) = Fin c /\
                lo <= c <= hi.
Proof.
  intros Hle. cbn [Math_max Math_min]. eexists. split; [reflexivity|].
  split.
  - apply Rmax_l.
  - apply Rmax_lub; [exact Hle | apply Rmin_l].
Qed.

(** X10. Dragging a handle on a canvas wider and higher than 80 can only
    produce an integer frequency between 20 and 20000 Hz and a gain that is
    a whole number of tenths between -20 and 20 dB, wherever the pointer
    is. *)
Theorem drag_stays_in_range (relX relY w h : R) :
  80 < w -> 80 < h ->
  (exists k : Z, drag_freq (Fin relX) (Fin w) = Fin (IZR k) /\
                 (20 <= k <= 20000)%Z) /\
  (exists m : Z, drag_gain (Fin relY) (Fin h) = Fin (IZR m / 10) /\
                 (-200 <= m <= 200)%Z).
Proof.
  intros Hw Hh. split.
  - unfold drag_freq, CONFIG. cbn [padding JsNum.sub JsNum.add JsNum.neg].
    destruct (@clamp_Fin 40 (w + - (40)) relX) as [c [Ec Hc]]; [lra|].
    rewrite Ec.
    destruct (@xToFreq_range c w Hw) as [F [EF HF]]; [lra|].
    rewrite EF. cbn [Math_round]. eexists. split; [reflexivity|].
    apply round_between. simpl. lra.
  - unfold drag_gain, CONFIG. cbn [padding JsNum.sub JsNum.add JsNum.neg].
    destruct (@clamp_Fin 40 (h + - (40)) relY) as [c [Ec Hc]]; [lra|].
    rewrite Ec. rewrite yToGain_Fin by lra.
    cbn [JsNum.mul Math_round]. rewrite div_Fin by lra.
    eexists. split; [reflexivity|].
    apply round_between.
    assert (Hd : 0 < h / 2 - 40) by lra.
    assert (Hg : -20 <= - (c - h / 2) * 20 / (h / 2 - 40) <= 20).
    { split.
      - apply Rmult_le_reg_r with (r := h / 2 - 40); [exact Hd|].
        replace (- (c - h / 2) * 20 / (h / 2 - 40) * (h / 2 - 40))
          with (- (c - h / 2) * 20) by (field; lra). lra.
      - apply Rmult_le_reg_r with (r := h / 2 - 40); [exact Hd|].
        replace (- (c - h / 2) * 20 / (h / 2 - 40) * (h / 2 - 40))
          with (- (c - h / 2) * 20) by (field; lra). lra. }
    simpl. lra.
Qed.

Lemma cascade_of_flat (f s : num) (l : list Coeffs) :
  Forall (fun c => getMagnitude f [c] s = Fin 0) l ->
  getMagnitude f l s = Fin 0.
Proof.
  induction 1 as [|c l Hc Hl IH].
  - reflexivity.
  - change (c :: l) with ([c] ++ l).
    rewrite getMagnitude_split, Hc, IH. simpl. f_equal. lra.
Qed.

Lemma default_bands_flat (freqs : list num) (k : nat) (bs : list Band) (f s : R) :
  Forall (fun x => exists r, x = Fin r /\ 0 < r < 24000) freqs ->
  Forall2 (fun v b => band_of_value v = Some b) (map_indexed k freqs) bs ->
  s <> 0 ->
  Forall (fun c => getMagnitude (Fin f) [c] (Fin s) = Fin 0) (activeCoeffs bs).
Proof.
  intros HF. revert k bs.
  induction HF as [|x freqs [r [-> Hr]] HF IH]; intros k bs H2 Hs.
  - inversion H2. constructor.
  - cbn [map_indexed] in H2. inversion H2 as [|v b l l' Hb Hrest]; subst.
    cbn [activeCoeffs map]. constructor.
    + cbn in Hb. injection Hb as <-.
      apply (@peak_zero_gain_section _ r 0.75 48000 f s); try reflexivity; lra.
    + apply (IH (S k)); assumption.
Qed.

(** X11. With a default table whose frequencies lie strictly between 0 and
    24000 Hz, the factory-default bands, read at type [Band] and turned
    into coefficients at the default sample rate, have a cascaded magnitude
    of 0 dB at every evaluation frequency. *)
Theorem factory_defaults_are_flat (freqs : list num) (bs : list Band) (f s : R) :
  Forall (fun x => exists r, x = Fin r /\ 0 < r < 24000) freqs ->
  Forall2 (fun v b => band_of_value v = Some b) (default_bands freqs) bs ->
  s <> 0 ->
  getMagnitude (Fin f) (activeCoeffs bs) (Fin s) = Fin 0.
Proof.
  intros HF H2 Hs. apply cascade_of_flat.
  apply (@default_bands_flat freqs 0 bs f s); assumption.
Qed.

Lemma drawCurve_from_flat (coeffs : list Coeffs) (w h : R) (fuel : nat) (i : R) :
  (forall f, getMagnitude (Fin f) coeffs default_sampleRate = Fin 0) ->
  w <> 80 -> 0 <= i ->
  forall p, In p (drawCurve_from fuel (Fin i) coeffs (Fin w) (Fin h)) ->
    snd p = Fin (h / 2) /\
    exists x, fst p = Fin x /\ 40 <= x <= w - 40.
Proof.
  intros Hflat Hw. revert i.
  induction fuel as [|fuel IH]; intros i Hi p Hp; [contradiction|].
  cbn [drawCurve_from] in Hp.
  unfold CONFIG in Hp. cbn [padding JsNum.sub JsNum.add JsNum.neg JsNum.leb] in Hp.
  destruct (Rle_dec i (w + - (40) + - (40))) as [Hle|Hgt]; [|contradiction].
  destruct Hp as [<-|Hp].
  - cbn [fst snd]. rewrite xToFreq_Fin by exact Hw. rewrite Hflat.
    rewrite gainToY_Fin. split.
    + f_equal. field.
    + eexists. split; [reflexivity|]. lra.
  - apply (IH (i + 1)); [lra | exact Hp].
Qed.

(** X12. For a coefficient list whose magnitude is 0 dB at every frequency
    (the factory defaults, all bands disabled, ...), every vertex that
    [drawCurve] emits on a canvas whose width is not 80 lies on the
    horizontal mid-line [y = height / 2], with its abscissa between the
    left padding and the right padding. *)
Theorem flat_curve_is_midline (coeffs : list Coeffs) (w h : R) (fuel : nat)
    (p : num * num) :
  (forall f, getMagnitude (Fin f) coeffs default_sampleRate = Fin 0) ->
  w <> 80 ->
  In p (drawCurve_from fuel (Fin 0) coeffs (Fin w) (Fin h)) ->
  snd p = Fin (h / 2) /\
  exists x, fst p = Fin x /\ 40 <= x <= w - 40.
Proof.
  intros Hflat Hw Hp.
  apply (@drawCurve_from_flat coeffs w h fuel 0 Hflat Hw (Rle_refl 0) p Hp).
Qed.

Lemma flat_curve_is_midline_witness :
  snd (Fin 40, Fin (300 / 2)) = Fin (300 / 2) /\
  exists x, fst (Fin 40, Fin (300 / 2)) = Fin x /\ 40 <= x <= 800 - 40.
Proof.
  apply (@flat_curve_is_midline [] 800 300 1 (Fin 40, Fin (300 / 2))).
  - intros f. reflexivity.
  - lra.
  - unfold drawCurve_from, CONFIG.
    cbn [padding JsNum.sub JsNum.add JsNum.neg JsNum.leb].
    destruct (Rle_dec 0 (800 + - (40) + - (40))) as [_|Hn]; [|exfalso; lra].
    left. rewrite xToFreq_Fin by lra. cbn [getMagnitude fold_left].
    rewrite gainToY_Fin. f_equal.
    + cbn [JsNum.add]. f_equal. lra.
    + f_equal. field.
Defined.



Lemma drag_stays_in_range_witness :
  exists k : Z, drag_freq (Fin 123) (Fin 800) = Fin (IZR k) /\
                (20 <= k <= 20000)%Z.
Proof.
  destruct (@drag_stays_in_range 123 50 800 300) as [H _]; try lra. exact H.
Defined.

Lemma factory_defaults_are_flat_witness :
  getMagnitude (Fin 440)
    (activeCoeffs
       [ {| index := Fin 0; freq := Fin 100; gain := Fin 0; q := Fin 0.75;
            type := "PK"; enabled := true |};
         {| index := Fin 1; freq := Fin 1000; gain := Fin 0; q := Fin 0.75;
            type := "PK"; enabled := true |} ])
    (Fin 48000)
  = Fin 0.
Proof.
  apply (@factory_defaults_are_flat [Fin 100; Fin 1000]).
  - repeat constructor; eexists; (split; [reflexivity | lra]).
  - repeat constructor.
  - lra.
Defined.

(** ** The store: [updateState] and [setEQ] *)

Lemma get_prop_set_prop_same (k : string) (v : value)
    (props : list (string * value)) :
  get_prop k (set_prop k v props) = v.
Proof.
  induction props as [|[k0 v0] props IH]; simpl.
  - rewrite String.eqb_refl. reflexivity.
  - destruct (String.eqb k0 k) eqn:E; simpl; rewrite E; [reflexivity | exact IH].
Qed.

Lemma set_prop_overwrite (k : string) (v1 v2 : value)
    (props : list (string * value)) :
  set_prop k v2 (set_prop k v1 props) = set_prop k v2 props.
Proof.
  induction props as [|[k0 v0] props IH]; simpl.
  - rewrite String.eqb_refl. reflexivity.
  - destruct (String.eqb k0 k) eqn:E; simpl; rewrite E; [reflexivity|].
    rewrite IH. reflexivity.
Qed.

Lemma nth_replace_nth_same (i : nat) (v : value) (l : list value) :
  (i < List.length l)%nat -> nth i (replace_nth i v l) VUndef = v.
Proof.
  revert i. induction l as [|x l IH]; intros [|i] H; simpl in *; try lia.
  - reflexivity.
  - apply IH. lia.
Qed.

Lemma nth_replace_nth_other (i j : nat) (v : value) (l : list value) :
  i <> j -> nth j (replace_nth i v l) VUndef = nth j l VUndef.
Proof.
  revert i j. induction l as [|x l IH]; intros [|i] [|j] H; simpl; try reflexivity.
  - contradiction.
  - apply IH. lia.
Qed.

Lemma replace_nth_overwrite (i : nat) (v1 v2 : value) (l : list value) :
  replace_nth i v2 (replace_nth i v1 l) = replace_nth i v2 l.
Proof.
  revert i. induction l as [|x l IH]; intros [|i]; simpl; try reflexivity.
  rewrite IH. reflexivity.
Qed.

Lemma in_bounds_nat (i : Z) (l : list value) :
  in_bounds i l = true -> (0 <= i)%Z /\ (Z.to_nat i < List.length l)%nat.
Proof.
  unfold in_bounds. intros H. apply andb_true_iff in H. destruct H as [H0 H1].
  apply Z.leb_le in H0. apply Z.ltb_lt in H1. lia.
Qed.

Lemma nth_item_nth (i : Z) (l : list value) :
  (0 <= i)%Z -> nth_item l i = nth (Z.to_nat i) l VUndef.
Proof.
  intros H. unfold nth_item.
  replace (i <? 0)%Z with false by (symmetry; apply Z.ltb_ge; exact H). reflexivity.
Qed.

Lemma nth_item_replace_other (i j : Z) (v : value) (l : list value) :
  (0 <= i)%Z -> j <> i ->
  nth_item (replace_nth (Z.to_nat i) v l) j = nth_item l j.
Proof.
  intros Hi Hne. unfold nth_item. destruct (j <? 0)%Z eqn:E; [reflexivity|].
  apply Z.ltb_ge in E. apply nth_replace_nth_other. lia.
Qed.

Lemma replace_nth_swap (i j : nat) (a b : value) (l : list value) :
  i <> j ->
  replace_nth i a (replace_nth j b l) = replace_nth j b (replace_nth i a l).
Proof.
  revert i j. induction l as [|x l IH]; intros [|i] [|j] H; simpl; try reflexivity.
  - contradiction.
  - rewrite IH by lia. reflexivity.
Qed.

Lemma updateState_unfold (index : Z) (key : string) (x : raw) (st : State) :
  updateState index key x st = setEQ index key (coerced key x) st.
Proof. reflexivity. Qed.

Lemma setEQ_in_range (items : list value) (index : Z) (key : string) (v : value)
    (st : State) (props : list (string * value)) :
  eqState st = VArr items ->
  in_bounds index items = true ->
  nth_item items index = VObj props ->
  key <> "__proto__" ->
  setEQ index key v st =
  Some (Normal (setEqState
                  (VArr (replace_nth (Z.to_nat index)
                           (VObj (set_prop key v props)) items)) st)).
Proof.
  intros Heq Hin Hslot Hk. unfold setEQ. rewrite Heq, Hslot.
  unfold assign_prop. apply String.eqb_neq in Hk. rewrite Hk. reflexivity.
Qed.

(** X13. An update of band [index], where the index is in range and the
    slot holds a band object, succeeds and writes exactly one field: the
    field [key] of that band then reads as the coerced argument, every other
    field of the band and every other band read as before, and the number of
    bands, the global gain and the device are unchanged. *)
Theorem updateState_writes_one_field (items : list value) (index : Z)
    (key : string) (x : raw) (st : State) (props : list (string * value)) :
  eqState st = VArr items ->
  in_bounds index items = true ->
  nth_item items index = VObj props ->
  key <> "__proto__" ->
  exists (st' : State) (items' : list value) (props' : list (string * value)),
    updateState index key x st = Some (Normal st') /\
    globalGainState st' = globalGainState st /\ device st' = device st /\
    eqState st' = VArr items' /\
    List.length items' = List.length items /\
    (forall j, j <> index -> nth_item items' j = nth_item items j) /\
    nth_item items' index = VObj props' /\
    get_prop key props' = coerced key x /\
    (forall k, k <> key -> get_prop k props' = get_prop k props).
Proof.
  intros Heq Hin Hslot Hk.
  destruct (@in_bounds_nat index items Hin) as [H0 Hlt].
  rewrite updateState_unfold.
  rewrite (@setEQ_in_range items index key _ st props Heq Hin Hslot Hk).
  eexists. eexists. eexists.
  split; [reflexivity|]. split; [reflexivity|]. split; [reflexivity|].
  split; [reflexivity|].
  split; [apply length_replace_nth|].
  split; [intros j Hj; apply nth_item_replace_other; assumption|].
  split.
  { rewrite nth_item_nth by exact H0. apply nth_replace_nth_same. exact Hlt. }
  split; [apply get_prop_set_prop_same|].
  intros k Hne. apply get_prop_set_prop_other. apply String.eqb_neq. congruence.
Qed.

Lemma updateState_writes_one_field_witness :
  exists (st' : State) (items' : list value) (props' : list (string * value)),
    updateState 1 "gain" (RawStr "4.5 dB") two_band_state = Some (Normal st') /\
    globalGainState st' = VNum (Fin (-3)) /\
    device st' = Some example_device /\
    eqState st' = VArr items' /\
    List.length items' = 2%nat /\
    (forall j, j <> 1%Z ->
       nth_item items' j
       = nth_item match eqState two_band_state with VArr l => l | _ => [] end j) /\
    nth_item items' 1 = VObj props' /\
    get_prop "gain" props' = coerced "gain" (RawStr "4.5 dB") /\
    (forall k, k <> "gain" ->
       get_prop k props'
       = get_prop k [ ("index", VNum (Fin 1)); ("freq", VNum (Fin 4000));
                      ("gain", VNum (Fin 2)); ("q", VNum (Fin 1));
                      ("type", VStr "HSQ"); ("enabled", VBool false) ]).
Proof.
  apply (@updateState_writes_one_field
           match eqState two_band_state with VArr l => l | _ => [] end
           1 "gain" (RawStr "4.5 dB") two_band_state
           [ ("index", VNum (Fin 1)); ("freq", VNum (Fin 4000));
             ("gain", VNum (Fin 2)); ("q", VNum (Fin 1));
             ("type", VStr "HSQ"); ("enabled", VBool false) ]).
  - reflexivity.
  - reflexivity.
  - reflexivity.
  - discriminate.
Defined.

(** X14. Two updates of the same field of the same band in a row leave the
    state that the second one alone leaves: the last write wins and the
    first leaves no trace. *)
Theorem updateState_last_write_wins (items : list value) (index : Z)
    (key : string) (x1 x2 : raw) (st : State) (props : list (string * value)) :
  eqState st = VArr items ->
  in_bounds index items = true ->
  nth_item items index = VObj props ->
  key <> "__proto__" ->
  exists st1 st2 : State,
    updateState index key x1 st = Some (Normal st1) /\
    updateState index key x2 st1 = Some (Normal st2) /\
    updateState index key x2 st = Some (Normal st2).
Proof.
  intros Heq Hin Hslot Hk.
  destruct (@in_bounds_nat index items Hin) as [H0 Hlt].
  rewrite !updateState_unfold.
  set (v1 := coerced key x1). set (v2 := coerced key x2).
  exists (setEqState (VArr (replace_nth (Z.to_nat index)
                              (VObj (set_prop key v1 props)) items)) st).
  exists (setEqState (VArr (replace_nth (Z.to_nat index)
                              (VObj (set_prop key v2 props)) items)) st).
  split; [apply setEQ_in_range; assumption|].
  split; [|apply setEQ_in_range; assumption].
  rewrite updateState_unfold. fold v2.
  erewrite setEQ_in_range.
  - unfold setEqState. cbn [device globalGainState eqState].
    rewrite replace_nth_overwrite, set_prop_overwrite. reflexivity.
  - reflexivity.
  - unfold in_bounds. rewrite length_replace_nth. exact Hin.
  - rewrite nth_item_nth by exact H0. apply nth_replace_nth_same. exact Hlt.
  - exact Hk.
Qed.

Lemma updateState_last_write_wins_witness :
  exists st1 st2 : State,
    updateState 0 "freq" (RawNum (Fin 250)) two_band_state = Some (Normal st1) /\
    updateState 0 "freq" (RawStr "315") st1 = Some (Normal st2) /\
    updateState 0 "freq" (RawStr "315") two_band_state = Some (Normal st2).
Proof.
  apply (@updateState_last_write_wins
           match eqState two_band_state with VArr l => l | _ => [] end
           0 "freq" (RawNum (Fin 250)) (RawStr "315") two_band_state
           [ ("index", VNum (Fin 0)); ("freq", VNum (Fin 1000));
             ("gain", VNum (Fin 0)); ("q", VNum (Fin 0.75));
             ("type", VStr "PK"); ("enabled", VBool true) ]).
  - reflexivity.
  - reflexivity.
  - reflexivity.
  - discriminate.
Defined.

(** X15. Updates of two different bands commute: with both indices in
    range and both slots holding band objects, the two orders of the two
    calls succeed and leave the same state. *)
Theorem updateState_distinct_bands_commute (items : list value) (i j : Z)
    (ki kj : string) (xi xj : raw) (st : State)
    (pi pj : list (string * value)) :
  eqState st = VArr items ->
  in_bounds i items = true -> in_bounds j items = true -> i <> j ->
  nth_item items i = VObj pi -> nth_item items j = VObj pj ->
  ki <> "__proto__" -> kj <> "__proto__" ->
  exists si sj s : State,
    updateState i ki xi st = Some (Normal si) /\
    updateState j kj xj si = Some (Normal s) /\
    updateState j kj xj st = Some (Normal sj) /\
    updateState i ki xi sj = Some (Normal s).
Proof.
  intros Heq Hi Hj Hne Hpi Hpj Hki Hkj.
  destruct (@in_bounds_nat i items Hi) as [Hi0 Hil].
  destruct (@in_bounds_nat j items Hj) as [Hj0 Hjl].
  assert (Hnat : Z.to_nat i <> Z.to_nat j) by lia.
  rewrite !updateState_unfold.
  set (vi := coerced ki xi). set (vj := coerced kj xj).
  set (si := setEqState (VArr (replace_nth (Z.to_nat i)
                                 (VObj (set_prop ki vi pi)) items)) st).
  set (sj := setEqState (VArr (replace_nth (Z.to_nat j)
                                 (VObj (set_prop kj vj pj)) items)) st).
  exists si, sj.
  exists (setEqState (VArr (replace_nth (Z.to_nat j) (VObj (set_prop kj vj pj))
                              (replace_nth (Z.to_nat i)
                                 (VObj (set_prop ki vi pi)) items))) st).
  split; [apply setEQ_in_range; assumption|].
  split; [|split; [apply setEQ_in_range; assumption|]].
  - rewrite updateState_unfold. fold vj.
    rewrite (@setEQ_in_range
               (replace_nth (Z.to_nat i) (VObj (set_prop ki vi pi)) items)
               j kj vj si pj).
    + reflexivity.
    + reflexivity.
    + unfold in_bounds. rewrite length_replace_nth. exact Hj.
    + rewrite nth_item_replace_other by (try assumption; congruence). exact Hpj.
    + exact Hkj.
  - rewrite updateState_unfold. fold vi.
    rewrite (@setEQ_in_range
               (replace_nth (Z.to_nat j) (VObj (set_prop kj vj pj)) items)
               i ki vi sj pi).
    + unfold sj, setEqState. cbn [device globalGainState eqState].
      rewrite (@replace_nth_swap (Z.to_nat i) (Z.to_nat j) _ _ items Hnat).
      reflexivity.
    + reflexivity.
    + unfold in_bounds. rewrite length_replace_nth. exact Hi.
    + rewrite nth_item_replace_other by (try assumption; congruence). exact Hpi.
    + exact Hki.
Qed.

Lemma updateState_distinct_bands_commute_witness :
  exists si sj s : State,
    updateState 0 "gain" (RawStr "-3") two_band_state = Some (Normal si) /\
    updateState 1 "enabled" (RawBool true) si = Some (Normal s) /\
    updateState 1 "enabled" (RawBool true) two_band_state = Some (Normal sj) /\
    updateState 0 "gain" (RawStr "-3") sj = Some (Normal s).
Proof.
  apply (@updateState_distinct_bands_commute
           match eqState two_band_state with VArr l => l | _ => [] end
           0 1 "gain" "enabled" (RawStr "-3") (RawBool true) two_band_state
           [ ("index", VNum (Fin 0)); ("freq", VNum (Fin 1000));
             ("gain", VNum (Fin 0)); ("q", VNum (Fin 0.75));
             ("type", VStr "PK"); ("enabled", VBool true) ]
           [ ("index", VNum (Fin 1)); ("freq", VNum (Fin 4000));
             ("gain", VNum (Fin 2)); ("q", VNum (Fin 1));
             ("type", VStr "HSQ"); ("enabled", VBool false) ]).
  - reflexivity.
  - reflexivity.
  - reflexivity.
  - discriminate.
  - reflexivity.
  - reflexivity.
  - discriminate.
  - discriminate.
Defined.

(** X16. Whatever the index, the key and the argument, and whether the
    call returns or throws, [updateState] on a state whose EQ is an array
    leaves an array of the same length, the same global gain and the same
    device: it never adds or removes a band. *)
Theorem updateState_never_resizes (index : Z) (key : string) (x : raw)
    (st : State) (items : list value) (r : completion State) :
  eqState st = VArr items ->
  updateState index key x st = Some r ->
  globalGainState (state_after st (Some r)) = globalGainState st /\
  device (state_after st (Some r)) = device st /\
  exists items', eqState (state_after st (Some r)) = VArr items' /\
                 List.length items' = List.length items.
Proof.
  intros Heq. rewrite updateState_unfold.
  set (v := coerced key x). clearbody v.
  unfold setEQ. rewrite Heq.
  destruct (assign_prop (nth_item items index) key v) as [[s'|e]|];
    intros Hr; inversion Hr; subst r; cbn [state_after].
  - split; [reflexivity|]. split; [reflexivity|].
    eexists. split; [reflexivity|]. apply length_replace_nth.
  - split; [reflexivity|]. split; [reflexivity|].
    exists items. split; [exact Heq | reflexivity].
Qed.

Lemma updateState_never_resizes_witness :
  globalGainState (state_after two_band_state (Some (Throw TypeError)))
    = globalGainState two_band_state /\
  device (state_after two_band_state (Some (Throw TypeError)))
    = device two_band_state /\
  exists items',
    eqState (state_after two_band_state (Some (Throw TypeError))) = VArr items' /\
    List.length items'
    = List.length match eqState two_band_state with VArr l => l | _ => [] end.
Proof.
  apply (@updateState_never_resizes 2 "gain" (RawNum (Fin 1)) two_band_state
           match eqState two_band_state with VArr l => l | _ => [] end
           (Throw TypeError)).
  - reflexivity.
  - reflexivity.
Defined.

(** ** Import: what a file does to the state *)

Section ImportOutcome.

Variable DEFAULT_FREQS : list num.


(** X18. A JSON profile whose [globalGain] is missing or falsy (0, null,
    false, an empty string) sets the global gain to 0, whatever it was
    before. *)
Theorem import_json_gain_defaults_to_zero (content : string)
    (props : list (string * value)) (st : State) :
  JSON_parse content = Some (VObj props) ->
  truthy (get_prop "bands" props) = true ->
  truthy (get_prop "globalGain" props) = false ->
  snd (importProfile DEFAULT_FREQS content st) = Imported /\
  globalGainState (fst (importProfile DEFAULT_FREQS content st)) = VNum (Fin 0).
Proof.
  intros Hp Hb Hg.
  rewrite (@import_json_success DEFAULT_FREQS content props st Hp Hb).
  rewrite Hg. split; reflexivity.
Qed.

End ImportOutcome.

Lemma import_json_gain_defaults_to_zero_witness :
  snd (importProfile example_freqs ("{" ++ qs "bands" ++ ": []}") example_state)
    = Imported /\
  globalGainState
    (fst (importProfile example_freqs ("{" ++ qs "bands" ++ ": []}")
            example_state)) = VNum (Fin 0).
Proof.
  apply (@import_json_gain_defaults_to_zero example_freqs _ [ ("bands", VArr []) ]).
  - vm_compute. reflexivity.
  - reflexivity.
  - reflexivity.
Defined.

(** ** Text profiles: how the lines of a file compose *)

Lemma written_band_shape (m : captures) (i f g qv : num) (t : string) (e : bool) :
  written_band m
    (VObj [ ("index", VNum i); ("freq", VNum f); ("gain", VNum g);
            ("q", VNum qv); ("type", VStr t); ("enabled", VBool e) ])
  = VObj [ ("index", VNum i);
           ("freq", VNum (parseFloat (group 4 m)));
           ("gain", VNum (parseFloat (group 5 m)));
           ("q", VNum (parseFloat (group 6 m)));
           ("type", VStr (group 3 m));
           ("enabled", VBool (String.eqb (toUpperCase (group 2 m)) "ON")) ].
Proof. reflexivity. Qed.

Lemma written_band_canonical (m : captures) (old : value) :
  canonical_band old -> canonical_band (written_band m old).
Proof.
  intros [i [f [g [qv [t [e ->]]]]]]. rewrite written_band_shape.
  repeat eexists.
Qed.

Lemma written_band_twice (m1 m2 : captures) (old : value) :
  canonical_band old ->
  written_band m2 (written_band m1 old) = written_band m2 old.
Proof.
  intros [i [f [g [qv [t [e ->]]]]]]. rewrite !written_band_shape. reflexivity.
Qed.

Lemma apply_filter_in_bounds (m : captures) (n : Z) (bs : list value) :
  parseInt (group 1 m) = Some n -> in_bounds (n - 1) bs = true ->
  apply_filter m bs
  = replace_nth (Z.to_nat (n - 1))
      (written_band m (nth (Z.to_nat (n - 1)) bs VUndef)) bs.
Proof.
  intros Hn Hb. unfold apply_filter. rewrite Hn, Hb.
  destruct (@in_bounds_nat (n - 1) bs Hb) as [H0 _].
  rewrite nth_item_nth by exact H0. reflexivity.
Qed.

Lemma apply_filter_out_of_bounds (m : captures) (n : Z) (bs : list value) :
  parseInt (group 1 m) = Some n -> in_bounds (n - 1) bs = false ->
  apply_filter m bs = bs.
Proof. intros Hn Hb. unfold apply_filter. rewrite Hn, Hb. reflexivity. Qed.

Lemma Forall_replace_nth (P : value -> Prop) (i : nat) (v : value) (l : list value) :
  Forall P l -> P v -> Forall P (replace_nth i v l).
Proof.
  intros Hl Hv. revert i. induction Hl as [|x l Hx Hl IH]; intros [|i]; simpl;
    constructor; auto.
Qed.

Lemma Forall_nth_value (P : value -> Prop) (i : nat) (l : list value) :
  Forall P l -> (i < List.length l)%nat -> P (nth i l VUndef).
Proof.
  intros Hl. revert i. induction Hl as [|x l Hx Hl IH]; intros [|i] Hi; simpl in *;
    try lia; auto. apply IH. lia.
Qed.

Lemma apply_filter_canonical (m : captures) (bs : list value) :
  Forall canonical_band bs -> Forall canonical_band (apply_filter m bs).
Proof.
  intros Hc. unfold apply_filter.
  destruct (parseInt (group 1 m)) as [n|]; [|exact Hc].
  destruct (in_bounds (n - 1) bs) eqn:Hb; [|exact Hc].
  destruct (@in_bounds_nat (n - 1) bs Hb) as [H0 Hlt].
  rewrite nth_item_nth by exact H0.
  apply Forall_replace_nth; [exact Hc|].
  apply (@written_band_canonical m). apply Forall_nth_value; assumption.
Qed.

Lemma text_step_canonical (acc : text_acc) (line : string) :
  Forall canonical_band (snd acc) ->
  Forall canonical_band (snd (text_step acc line)).
Proof.
  intros Hc. unfold text_step.
  destruct (String.eqb (trim line) ""); [exact Hc|].
  destruct (regex_match true preampRegex (trim line)); [exact Hc|].
  destruct (regex_match true filterRegex (trim line)) as [m|]; [|exact Hc].
  apply apply_filter_canonical. exact Hc.
Qed.

Lemma fold_text_step_canonical (lines : list string) (acc : text_acc) :
  Forall canonical_band (snd acc) ->
  Forall canonical_band (snd (fold_left text_step lines acc)).
Proof.
  revert acc. induction lines as [|l lines IH]; intros acc Hc; simpl.
  - exact Hc.
  - apply IH. apply text_step_canonical. exact Hc.
Qed.

Lemma default_bands_canonical (freqs : list num) (k : nat) :
  Forall canonical_band (map_indexed k freqs).
Proof.
  revert k. induction freqs as [|f freqs IH]; intros k; simpl; constructor.
  - repeat eexists.
  - apply IH.
Qed.

Lemma step_of_filter_line (acc : text_acc) (line : string) (m : captures) (n : Z) :
  filter_line line m n ->
  text_step acc line = (fst acc, apply_filter m (snd acc)).
Proof.
  intros [Hne [Hp [Hf _]]]. apply text_step_filter; try assumption.
  apply negb_true_iff. apply String.eqb_neq. exact Hne.
Qed.

Lemma step_of_preamp_line (acc : text_acc) (line : string) (m : captures) :
  preamp_line line m ->
  text_step acc line = (parseFloat (group 1 m), snd acc).
Proof.
  intros [Hne Hp]. apply text_step_preamp; try assumption.
  apply negb_true_iff. apply String.eqb_neq. exact Hne.
Qed.

Lemma filter_lines_same_band (acc : text_acc) (a b : string) (ma mb : captures)
    (n : Z) :
  Forall canonical_band (snd acc) ->
  filter_line a ma n -> filter_line b mb n ->
  text_step (text_step acc a) b = text_step acc b.
Proof.
  intros Hc Ha Hb.
  rewrite (@step_of_filter_line acc a ma n Ha).
  rewrite !(@step_of_filter_line _ b mb n Hb). cbn [fst snd].
  f_equal.
  destruct Ha as [_ [_ [_ Hna]]]. destruct Hb as [_ [_ [_ Hnb]]].
  destruct (in_bounds (n - 1) (snd acc)) eqn:Hin.
  - destruct (@in_bounds_nat (n - 1) (snd acc) Hin) as [H0 Hlt].
    rewrite (@apply_filter_in_bounds ma n (snd acc) Hna Hin).
    rewrite (@apply_filter_in_bounds mb n (replace_nth _ _ _) Hnb)
      by (unfold in_bounds; rewrite length_replace_nth; exact Hin).
    rewrite (@apply_filter_in_bounds mb n (snd acc) Hnb Hin).
    rewrite nth_replace_nth_same by exact Hlt.
    rewrite replace_nth_overwrite, written_band_twice; [reflexivity|].
    apply Forall_nth_value; assumption.
  - rewrite (@apply_filter_out_of_bounds ma n (snd acc) Hna Hin). reflexivity.
Qed.

Lemma apply_filter_length (m : captures) (bs : list value) :
  List.length (apply_filter m bs) = List.length bs.
Proof.
  unfold apply_filter. destruct (parseInt (group 1 m)); [|reflexivity].
  destruct (in_bounds _ bs); [apply length_replace_nth | reflexivity].
Qed.

Lemma in_bounds_length (i : Z) (l l' : list value) :
  List.length l = List.length l' -> in_bounds i l = in_bounds i l'.
Proof. intros H. unfold in_bounds. rewrite H. reflexivity. Qed.

Lemma filter_lines_commute (acc : text_acc) (a b : string) (ma mb : captures)
    (na nb : Z) :
  filter_line a ma na -> filter_line b mb nb -> na <> nb ->
  text_step (text_step acc a) b = text_step (text_step acc b) a.
Proof.
  intros Ha Hb Hne.
  rewrite (@step_of_filter_line acc a ma na Ha),
    (@step_of_filter_line acc b mb nb Hb).
  rewrite (@step_of_filter_line _ a ma na Ha), (@step_of_filter_line _ b mb nb Hb).
  cbn [fst snd]. f_equal.
  destruct Ha as [_ [_ [_ Hna]]]. destruct Hb as [_ [_ [_ Hnb]]].
  set (bs := snd acc).
  destruct (in_bounds (na - 1) bs) eqn:Hia; destruct (in_bounds (nb - 1) bs) eqn:Hib.
  - destruct (@in_bounds_nat (na - 1) bs Hia) as [H0a Hlta].
    destruct (@in_bounds_nat (nb - 1) bs Hib) as [H0b Hltb].
    rewrite (@apply_filter_in_bounds ma na bs Hna Hia).
    rewrite (@apply_filter_in_bounds mb nb bs Hnb Hib).
    rewrite (@apply_filter_in_bounds mb nb (replace_nth _ _ _) Hnb)
      by (unfold in_bounds; rewrite length_replace_nth; exact Hib).
    rewrite (@apply_filter_in_bounds ma na (replace_nth _ _ _) Hna)
      by (unfold in_bounds; rewrite length_replace_nth; exact Hia).
    rewrite !nth_replace_nth_other by lia.
    apply replace_nth_swap. lia.
  - rewrite (@apply_filter_out_of_bounds mb nb bs Hnb Hib).
    apply (@apply_filter_out_of_bounds mb nb _ Hnb).
    rewrite (@in_bounds_length _ _ bs (apply_filter_length ma bs)). exact Hib.
  - rewrite (@apply_filter_out_of_bounds ma na bs Hna Hia).
    symmetry. apply (@apply_filter_out_of_bounds ma na _ Hna).
    rewrite (@in_bounds_length _ _ bs (apply_filter_length mb bs)). exact Hia.
  - rewrite (@apply_filter_out_of_bounds ma na bs Hna Hia).
    rewrite (@apply_filter_out_of_bounds mb nb bs Hnb Hib).
    rewrite (@apply_filter_out_of_bounds ma na bs Hna Hia). reflexivity.
Qed.

Lemma preamp_filter_commute (acc : text_acc) (a b : string) (ma mb : captures)
    (n : Z) :
  preamp_line a ma -> filter_line b mb n ->
  text_step (text_step acc a) b = text_step (text_step acc b) a.
Proof.
  intros Ha Hb.
  rewrite !(@step_of_preamp_line _ a ma Ha), !(@step_of_filter_line _ b mb n Hb).
  reflexivity.
Qed.

Lemma text_step_gain_kept (acc : text_acc) (line : string) :
  trim line = "" \/ regex_match true preampRegex (trim line) = None ->
  fst (text_step acc line) = fst acc.
Proof.
  unfold text_step. intros [He|Hp].
  - rewrite He. reflexivity.
  - rewrite Hp. destruct (String.eqb (trim line) ""); [reflexivity|].
    destruct (regex_match true filterRegex (trim line)); reflexivity.
Qed.

Lemma fold_gain_kept (lines : list string) (acc : text_acc) :
  Forall (fun line => trim line = "" \/
                      regex_match true preampRegex (trim line) = None) lines ->
  fst (fold_left text_step lines acc) = fst acc.
Proof.
  intros H. revert acc. induction H as [|line lines Hl Hls IH]; intros acc; simpl.
  - reflexivity.
  - rewrite IH. apply text_step_gain_kept. exact Hl.
Qed.

Lemma fold_ignored (lines : list string) (acc : text_acc) :
  Forall ignored_line lines -> fold_left text_step lines acc = acc.
Proof.
  intros H. revert acc. induction H as [|line lines Hl Hls IH]; intros acc; simpl.
  - reflexivity.
  - rewrite (@text_step_ignored acc line Hl). apply IH.
Qed.

(** Every line is a preamp line, a filter line, or changes nothing. *)
Lemma line_classes (line : string) :
  (forall acc, text_step acc line = acc) \/
  (exists m, preamp_line line m) \/
  (exists m n, filter_line line m n).
Proof.
  destruct (String.eqb (trim line) "") eqn:Ee.
  { left. intros acc. apply text_step_ignored. left. apply String.eqb_eq. exact Ee. }
  apply String.eqb_neq in Ee.
  destruct (regex_match true preampRegex (trim line)) as [m|] eqn:Ep.
  { right. left. exists m. split; assumption. }
  destruct (regex_match true filterRegex (trim line)) as [m|] eqn:Ef.
  2:{ left. intros acc. apply text_step_ignored. right. auto. }
  destruct (parseInt (group 1 m)) as [n|] eqn:En.
  { right. right. exists m, n. repeat split; assumption. }
  left. intros acc. rewrite (@text_step_filter acc line m); try assumption.
  - unfold apply_filter. rewrite En. destruct acc; reflexivity.
  - apply negb_true_iff. apply String.eqb_neq. exact Ee.
Qed.

Lemma overwritten_line_is_dead (a b : string) (ma mb : captures) (n : Z)
    (mid : list string) :
  filter_line a ma n -> filter_line b mb n ->
  forall acc, Forall canonical_band (snd acc) ->
    text_step (fold_left text_step mid (text_step acc a)) b
    = text_step (fold_left text_step mid acc) b.
Proof.
  intros Ha Hb. induction mid as [|x mid IH]; intros acc Hc; cbn [fold_left].
  - apply (@filter_lines_same_band acc a b ma mb n); assumption.
  - destruct (line_classes x) as [Hid|[[mx Hx]|[mx [nx Hx]]]].
    + rewrite !Hid. apply IH. exact Hc.
    + rewrite <- (@preamp_filter_commute acc x a mx ma n Hx Ha).
      apply IH. apply text_step_canonical. exact Hc.
    + destruct (Z.eq_dec n nx) as [<-|Hne].
      * rewrite (@filter_lines_same_band acc a x ma mx n Hc Ha Hx). reflexivity.
      * rewrite (@filter_lines_commute acc a x ma mx n nx Ha Hx Hne).
        apply IH. apply text_step_canonical. exact Hc.
Qed.

Lemma canonical_reads_as_band (v : value) :
  canonical_band v -> exists b, band_of_value v = Some b.
Proof. intros [i [f [g [qv [t [e ->]]]]]]. eexists. reflexivity. Qed.

Section TextLines.

Variable DEFAULT_FREQS : list num.

Lemma parseTextProfile_fold (content : string) :
  parseTextProfile DEFAULT_FREQS content =
  {| globalGain :=
       VNum (fst (fold_left text_step (split_lines content)
                    (start_acc DEFAULT_FREQS)));
     bands :=
       VArr (snd (fold_left text_step (split_lines content)
                    (start_acc DEFAULT_FREQS))) |}.
Proof.
  unfold parseTextProfile, start_acc.
  destruct (fold_left text_step _ _) as [g bs]. reflexivity.
Qed.

Lemma prefix_acc_canonical (lines : list string) :
  Forall canonical_band (snd (fold_left text_step lines (start_acc DEFAULT_FREQS))).
Proof. apply fold_text_step_canonical. apply default_bands_canonical. Qed.

Lemma prefix_acc_length (lines : list string) :
  List.length (snd (fold_left text_step lines (start_acc DEFAULT_FREQS)))
  = List.length DEFAULT_FREQS.
Proof.
  destruct (@fold_text_step_shape lines (start_acc DEFAULT_FREQS)
              (well_indexed_defaults DEFAULT_FREQS 0)) as [Hl _].
  rewrite Hl. apply length_map_indexed.
Qed.

(** X19. The global gain of a text profile is the number of its last
    preamp line: with a preamp line followed only by lines that are blank
    or do not match the preamp pattern, the parsed gain is [parseFloat] of
    that line's first capture, whatever came before it. *)
Theorem text_import_last_preamp_wins (content : string)
    (before after : list string) (line : string) (m : captures) :
  split_lines content = before ++ line :: after ->
  preamp_line line m ->
  Forall (fun l => trim l = "" \/
                   regex_match true preampRegex (trim l) = None) after ->
  globalGain (parseTextProfile DEFAULT_FREQS content)
    = VNum (parseFloat (group 1 m)).
Proof.
  intros Hsplit Hp Hafter.
  rewrite parseTextProfile_fold, Hsplit, fold_left_app. cbn [fold_left globalGain].
  rewrite fold_gain_kept by exact Hafter.
  rewrite (@step_of_preamp_line _ line m Hp). reflexivity.
Qed.

(** X20. A text profile without a preamp line has global gain 0: the gain
    starts from 0, not from the gain in force before the import. *)
Theorem text_import_without_preamp_is_zero_gain (content : string) :
  Forall (fun l => trim l = "" \/
                   regex_match true preampRegex (trim l) = None)
         (split_lines content) ->
  globalGain (parseTextProfile DEFAULT_FREQS content) = VNum (Fin 0).
Proof.
  intros H. rewrite parseTextProfile_fold. cbn [globalGain].
  rewrite fold_gain_kept by exact H. reflexivity.
Qed.

(** X21. Of two filter lines that name the same band, only the later one
    counts: deleting the earlier one from the file, whatever lines stand
    between the two, leaves the parsed profile unchanged. *)
Theorem text_import_last_filter_line_wins (c1 c2 : string)
    (before mid after : list string) (a b : string) (ma mb : captures) (n : Z) :
  split_lines c1 = before ++ a :: mid ++ b :: after ->
  split_lines c2 = before ++ mid ++ b :: after ->
  filter_line a ma n -> filter_line b mb n ->
  parseTextProfile DEFAULT_FREQS c1 = parseTextProfile DEFAULT_FREQS c2.
Proof.
  intros H1 H2 Ha Hb.
  rewrite !parseTextProfile_fold, H1, H2.
  rewrite !fold_left_app. cbn [fold_left]. rewrite !fold_left_app. cbn [fold_left].
  rewrite (@overwritten_line_is_dead a b ma mb n mid Ha Hb _
             (prefix_acc_canonical before)).
  reflexivity.
Qed.

(** X22. Adjacent lines that do not touch the same thing can be swapped:
    two filter lines for different bands, or a preamp line and a filter
    line, give the same parsed profile in either order. *)
Theorem text_import_independent_lines_commute (c1 c2 : string)
    (before after : list string) (a b : string) (ma mb : captures) (na nb : Z) :
  split_lines c1 = before ++ a :: b :: after ->
  split_lines c2 = before ++ b :: a :: after ->
  (filter_line a ma na /\ filter_line b mb nb /\ na <> nb) \/
  (preamp_line a ma /\ filter_line b mb nb) ->
  parseTextProfile DEFAULT_FREQS c1 = parseTextProfile DEFAULT_FREQS c2.
Proof.
  intros H1 H2 Hab.
  rewrite !parseTextProfile_fold, H1, H2.
  rewrite !fold_left_app. cbn [fold_left].
  destruct Hab as [[Ha [Hb Hne]]|[Ha Hb]].
  - rewrite (@filter_lines_commute _ a b ma mb na nb Ha Hb Hne). reflexivity.
  - rewrite (@preamp_filter_commute _ a b ma mb nb Ha Hb). reflexivity.
Qed.

(** X23. A line that matches neither pattern, and a filter line whose band
    number is 0 or exceeds the number of default bands, are passed over:
    deleting such a line leaves the parsed profile unchanged, so a filter
    line never adds a band. *)
Theorem text_import_skips_lines (c1 c2 : string)
    (before after : list string) (line : string) :
  split_lines c1 = before ++ line :: after ->
  split_lines c2 = before ++ after ->
  ignored_line line \/
  (exists m n, filter_line line m n /\
               (n < 1 \/ Z.of_nat (List.length DEFAULT_FREQS) < n)%Z) ->
  parseTextProfile DEFAULT_FREQS c1 = parseTextProfile DEFAULT_FREQS c2.
Proof.
  intros H1 H2 Hl.
  rewrite !parseTextProfile_fold, H1, H2.
  rewrite !fold_left_app. cbn [fold_left].
  set (acc := fold_left text_step before (start_acc DEFAULT_FREQS)).
  assert (Hid : text_step acc line = acc).
  { destruct Hl as [Hi|[m [n [Hf Hn]]]].
    - apply text_step_ignored. exact Hi.
    - rewrite (@step_of_filter_line acc line m n Hf).
      destruct Hf as [_ [_ [_ Hp]]].
      rewrite (@apply_filter_out_of_bounds m n (snd acc) Hp).
      + destruct acc; reflexivity.
      + unfold in_bounds. unfold acc. rewrite prefix_acc_length.
        apply andb_false_iff. destruct Hn as [Hn|Hn].
        * left. apply Z.leb_gt. lia.
        * right. apply Z.ltb_ge. lia. }
  rewrite Hid. reflexivity.
Qed.

(** X24. After a text import every band of the EQ is a complete band
    object: it reads at the type [Band], with numeric index, freq, gain and
    q, a string type and a boolean enabled flag. *)
Theorem text_import_bands_are_typed (content : string) (st : State) :
  startsWith (trim content) "{" = false ->
  snd (importProfile DEFAULT_FREQS content st) = Imported ->
  exists bs : list value,
    eqState (fst (importProfile DEFAULT_FREQS content st)) = VArr bs /\
    Forall (fun v => exists b, band_of_value v = Some b) bs.
Proof.
  intros Hj. unfold importProfile, detect. rewrite Hj.
  destruct (startsWith (trim content) "Preamp:" || includes content "Filter 1:");
    cbn [fst snd]; [|discriminate].
  intros _. rewrite parseTextProfile_fold. cbn.
  eexists. split; [reflexivity|].
  eapply Forall_impl; [|apply prefix_acc_canonical].
  intros v Hv. apply canonical_reads_as_band. exact Hv.
Qed.

(** X25. A file that is taken for a text profile but has no line matching
    either pattern is imported without error and acts as a confirmed reset:
    the EQ becomes the default EQ and the global gain 0. *)
Theorem text_import_without_matches_resets (content : string) (st : State) :
  startsWith (trim content) "{" = false ->
  startsWith (trim content) "Preamp:" || includes content "Filter 1:" = true ->
  Forall ignored_line (split_lines content) ->
  importProfile DEFAULT_FREQS content st
  = (resetToDefaults DEFAULT_FREQS true st, Imported).
Proof.
  intros Hj Ht Hl. unfold importProfile, detect. rewrite Hj, Ht.
  rewrite parseTextProfile_fold, (fold_ignored _ Hl). reflexivity.
Qed.

End TextLines.

Ltac line_facts :=
  repeat split; try (vm_compute; reflexivity); try (vm_compute; discriminate).

Lemma text_import_last_preamp_wins_witness :
  globalGain (parseTextProfile example_freqs
                (text_of_lines [line_preamp_a; line_preamp_b; line_filter2]))
  = VNum (parseFloat "-6.5").
Proof.
  eapply (@text_import_last_preamp_wins example_freqs
           (text_of_lines [line_preamp_a; line_preamp_b; line_filter2])
           [line_preamp_a] [line_filter2] line_preamp_b
           [ (1%nat, "-6.5"); (2%nat, ".5") ]).
  - vm_compute. reflexivity.
  - line_facts.
  - repeat (apply Forall_cons; [right; vm_compute; reflexivity|]).
    apply Forall_nil.
Defined.

Lemma text_import_without_preamp_is_zero_gain_witness :
  globalGain (parseTextProfile example_freqs
                (text_of_lines [line_filter1_a; line_filter2]))
  = VNum (Fin 0).
Proof.
  apply (@text_import_without_preamp_is_zero_gain example_freqs).
  repeat (apply Forall_cons; [right; vm_compute; reflexivity|]).
  apply Forall_nil.
Defined.

Lemma text_import_last_filter_line_wins_witness :
  parseTextProfile example_freqs
    (text_of_lines [line_filter1_a; line_preamp_a; line_filter2; line_filter1_b])
  = parseTextProfile example_freqs
      (text_of_lines [line_preamp_a; line_filter2; line_filter1_b]).
Proof.
  eapply (@text_import_last_filter_line_wins example_freqs _ _
           [] [line_preamp_a; line_filter2] [] line_filter1_a line_filter1_b
           _
           _ 1).
  - vm_compute. reflexivity.
  - vm_compute. reflexivity.
  - line_facts.
  - line_facts.
Defined.

Lemma text_import_independent_lines_commute_witness :
  parseTextProfile example_freqs
    (text_of_lines [line_preamp_a; line_filter1_a; line_filter2])
  = parseTextProfile example_freqs
      (text_of_lines [line_preamp_a; line_filter2; line_filter1_a]).
Proof.
  eapply (@text_import_independent_lines_commute example_freqs _ _
           [line_preamp_a] [] line_filter1_a line_filter2
           _
           _ 1 2).
  - vm_compute. reflexivity.
  - vm_compute. reflexivity.
  - left. line_facts.
Defined.

Lemma text_import_skips_lines_witness :
  parseTextProfile example_freqs
    (text_of_lines [line_preamp_a; line_filter11; line_filter2])
  = parseTextProfile example_freqs (text_of_lines [line_preamp_a; line_filter2]).
Proof.
  apply (@text_import_skips_lines example_freqs _ _
           [line_preamp_a] [line_filter2] line_filter11).
  - vm_compute. reflexivity.
  - vm_compute. reflexivity.
  - right.
    eexists. exists 11%Z.
    split; [line_facts|]. right. vm_compute. reflexivity.
Defined.

Lemma text_import_bands_are_typed_witness :
  exists bs : list value,
    eqState (fst (importProfile example_freqs example_text
                    (initial_state example_freqs))) = VArr bs /\
    Forall (fun v => exists b, band_of_value v = Some b) bs.
Proof.
  apply (@text_import_bands_are_typed example_freqs example_text
           (initial_state example_freqs)).
  - vm_compute. reflexivity.
  - vm_compute. reflexivity.
Defined.

Lemma text_import_without_matches_resets_witness :
  importProfile example_freqs line_comment example_state
  = (resetToDefaults example_freqs true example_state, Imported).
Proof.
  apply (@text_import_without_matches_resets example_freqs line_comment
           example_state).
  - vm_compute. reflexivity.
  - vm_compute. reflexivity.
  - repeat (apply Forall_cons; [right; split; vm_compute; reflexivity|]).
    apply Forall_nil.
Defined.

(** ** Text profiles: what the patterns let through *)

Section MatcherSound.

Variable ic : bool.
Variable G : nat -> list ascii -> Prop.

Lemma caps_ok_set (n : nat) (u : list ascii) (caps : captures) :
  G n u -> caps_ok G caps -> caps_ok G (set_capture n (str u) caps).
Proof.
  intros Hu Hc m t. unfold set_capture. simpl.
  destruct (Nat.eqb n m) eqn:E.
  - apply Nat.eqb_eq in E. subst m. intros H. inversion H; subst.
    rewrite chars_str. exact Hu.
  - apply Hc.
Qed.

Lemma has_group_set (n m : nat) (t : string) (caps : captures) :
  m = n \/ has_group m caps -> has_group m (set_capture n t caps).
Proof.
  unfold has_group, set_capture. simpl. intros H.
  destruct (Nat.eqb n m) eqn:E; [discriminate|].
  destruct H as [->|H]; [|exact H].
  rewrite Nat.eqb_refl in E. discriminate E.
Qed.

(** A successful match splits the input into a word of the pattern and the
    rest handed to the continuation; on the way every sure group is set and
    every capture is a word of its group. *)
Lemma rmatch_star (r' : regex) (pos : nat) (s : list ascii) (caps : captures)
    (k : cont) :
  rmatch ic (RStar r') pos s caps k
  = star_loop (rmatch ic r') k (S (List.length s)) pos s caps.
Proof. reflexivity. Qed.

Lemma rmatch_sound (r : regex) :
  groups_ok ic G r ->
  forall (pos : nat) (s : list ascii) (caps : captures) (k : cont)
         (res : captures),
    caps_ok G caps ->
    rmatch ic r pos s caps k = Some res ->
    exists (u s' : list ascii) (caps' : captures),
      s = u ++ s' /\ lang ic r u /\ caps_ok G caps' /\
      (forall n, In n (sure_groups r) \/ has_group n caps -> has_group n caps') /\
      k (pos + List.length u)%nat s' caps' = Some res.
Proof.
  induction r as [| |c|p|r1 IH1 r2 IH2|r1 IH1 r2 IH2|r' IH|r' IH|n r' IH];
    intros Hg pos s caps k res Hc Hm.
  - simpl in Hm. exists [], s, caps. rewrite Nat.add_0_r.
    split; [reflexivity|]. split; [constructor|]. split; [exact Hc|].
    split; [intros n [[]|H]; exact H | exact Hm].
  - simpl in Hm. destruct (Nat.eqb pos 0); [|discriminate].
    exists [], s, caps. rewrite Nat.add_0_r.
    split; [reflexivity|]. split; [constructor|]. split; [exact Hc|].
    split; [intros n [[]|H]; exact H | exact Hm].
  - simpl in Hm. destruct s as [|x s']; [discriminate|].
    destruct (char_matches ic c x) eqn:E; [|discriminate].
    exists [x], s', caps. rewrite Nat.add_1_r.
    split; [reflexivity|]. split; [constructor; exact E|]. split; [exact Hc|].
    split; [intros n [[]|H]; exact H | exact Hm].
  - simpl in Hm. destruct s as [|x s']; [discriminate|].
    destruct (set_matches ic p x) eqn:E; [|discriminate].
    exists [x], s', caps. rewrite Nat.add_1_r.
    split; [reflexivity|]. split; [constructor; exact E|]. split; [exact Hc|].
    split; [intros n [[]|H]; exact H | exact Hm].
  - simpl in Hm. destruct Hg as [Hg1 Hg2].
    destruct (IH1 Hg1 _ _ _ _ _ Hc Hm) as [u1 [s1 [caps1 [-> [L1 [C1 [S1 K1]]]]]]].
    destruct (IH2 Hg2 _ _ _ _ _ C1 K1) as [u2 [s2 [caps2 [-> [L2 [C2 [S2 K2]]]]]]].
    exists (u1 ++ u2), s2, caps2.
    rewrite <- app_assoc, length_app, Nat.add_assoc.
    split; [reflexivity|]. split; [constructor; assumption|]. split; [exact C2|].
    split; [|exact K2].
    intros n [Hn|Hn].
    + simpl in Hn. apply in_app_or in Hn. destruct Hn as [Hn|Hn].
      * apply S2. right. apply S1. left. exact Hn.
      * apply S2. left. exact Hn.
    + apply S2. right. apply S1. right. exact Hn.
  - simpl in Hm. destruct Hg as [Hg1 Hg2].
    destruct (rmatch ic r1 pos s caps k) as [res1|] eqn:E1.
    + inversion Hm; subst res1.
      destruct (IH1 Hg1 _ _ _ _ _ Hc E1) as [u [s' [caps' [-> [L [C [S K]]]]]]].
      exists u, s', caps'.
      split; [reflexivity|]. split; [apply lang_alt_l; exact L|].
      split; [exact C|]. split; [|exact K].
      intros n [[]|Hn]. apply S. right. exact Hn.
    + destruct (IH2 Hg2 _ _ _ _ _ Hc Hm) as [u [s' [caps' [-> [L [C [S K]]]]]]].
      exists u, s', caps'.
      split; [reflexivity|]. split; [apply lang_alt_r; exact L|].
      split; [exact C|]. split; [|exact K].
      intros n [[]|Hn]. apply S. right. exact Hn.
  - simpl in Hg. rewrite rmatch_star in Hm.
    revert Hm. generalize (S (List.length s)) as fuel.
    intros fuel. revert pos s caps Hc.
    induction fuel as [|fuel IHf]; intros pos s caps Hc Hm; simpl in Hm.
    + exists [], s, caps. rewrite Nat.add_0_r.
      split; [reflexivity|]. split; [constructor|]. split; [exact Hc|].
      split; [intros n [[]|H]; exact H | exact Hm].
    + match type of Hm with
      | match ?M with _ => _ end = _ => destruct M as [res1|] eqn:E1
      end.
      * inversion Hm; subst res1.
        destruct (IH Hg _ _ _ _ _ Hc E1) as [u [s' [caps' [-> [L [C [S K]]]]]]].
        destruct (Nat.eqb (pos + List.length u) pos); [discriminate|].
        destruct (IHf _ _ _ C K) as [v [s'' [caps'' [-> [L' [C' [S' K']]]]]]].
        exists (u ++ v), s'', caps''.
        rewrite <- app_assoc, length_app, Nat.add_assoc.
        split; [reflexivity|]. split; [constructor; assumption|].
        split; [exact C'|]. split; [|exact K'].
        intros n [[]|Hn]. apply S'. right. apply S. right. exact Hn.
      * exists [], s, caps. rewrite Nat.add_0_r.
        split; [reflexivity|]. split; [constructor|]. split; [exact Hc|].
        split; [intros n [[]|H]; exact H | exact Hm].
  - simpl in Hg. simpl in Hm.
    match type of Hm with
    | match ?M with _ => _ end = _ => destruct M as [res1|] eqn:E1
    end.
    + inversion Hm; subst res1.
      destruct (IH Hg _ _ _ _ _ Hc E1) as [u [s' [caps' [-> [L [C [S K]]]]]]].
      destruct (Nat.eqb (pos + List.length u) pos); [discriminate|].
      exists u, s', caps'.
      split; [reflexivity|]. split; [apply lang_opt_some; exact L|].
      split; [exact C|]. split; [|exact K].
      intros n [[]|Hn]. apply S. right. exact Hn.
    + exists [], s, caps. rewrite Nat.add_0_r.
      split; [reflexivity|]. split; [constructor|]. split; [exact Hc|].
      split; [intros n [[]|H]; exact H | exact Hm].
  - simpl in Hm. destruct Hg as [Hgn Hg].
    destruct (IH Hg _ _ _ _ _ Hc Hm) as [u [s' [caps' [-> [L [C [S K]]]]]]].
    replace (pos + List.length u - pos)%nat with (List.length u) in K by lia.
    rewrite firstn_app, Nat.sub_diag, firstn_all in K. simpl in K.
    rewrite app_nil_r in K.
    exists u, s', (set_capture n (str u) caps').
    split; [reflexivity|]. split; [constructor; exact L|].
    split; [apply caps_ok_set; [apply Hgn; exact L | exact C]|].
    split; [|exact K].
    intros m [Hm'|Hm'].
    + simpl in Hm'. apply has_group_set. destruct Hm' as [->|Hm'].
      * left. reflexivity.
      * right. apply S. left. exact Hm'.
    + apply has_group_set. right. apply S. right. exact Hm'.
Qed.

Lemma exec_from_sound (r : regex) (s : list ascii) :
  groups_ok ic G r ->
  forall (pos : nat) (res : captures),
    exec_from ic r pos s = Some res ->
    caps_ok G res /\ forall n, In n (sure_groups r) -> has_group n res.
Proof.
  intros Hg. induction s as [|x s IH]; intros pos res He; simpl in He.
  - destruct (rmatch ic r pos [] [] (fun _ _ caps => Some caps)) as [c|] eqn:E;
      [|discriminate].
    inversion He; subst c.
    assert (Hc0 : caps_ok G []) by (intros n t H; discriminate H).
    destruct (@rmatch_sound r Hg _ _ _ _ _ Hc0 E)
      as [u [s' [caps' [_ [_ [C [S K]]]]]]].
    inversion K; subst. split; [exact C|]. intros n Hn. apply S. left. exact Hn.
  - destruct (rmatch ic r pos (x :: s) [] (fun _ _ caps => Some caps)) as [c|] eqn:E.
    + inversion He; subst c.
      assert (Hc0 : caps_ok G []) by (intros n t H; discriminate H).
      destruct (@rmatch_sound r Hg _ _ _ _ _ Hc0 E)
        as [u [s' [caps' [_ [_ [C [S K]]]]]]].
      inversion K; subst. split; [exact C|]. intros n Hn. apply S. left. exact Hn.
    + apply (IH _ _ He).
Qed.

Lemma regex_match_sound (r : regex) (s : string) (m : captures) (n : nat) :
  groups_ok ic G r -> In n (sure_groups r) ->
  regex_match ic r s = Some m ->
  G n (chars (group n m)).
Proof.
  intros Hg Hn Hm. unfold regex_match in Hm.
  destruct (@exec_from_sound r (chars s) Hg 0%nat m Hm) as [C S].
  specialize (S n Hn). unfold has_group in S. unfold group.
  destruct (capture n m) as [t|] eqn:E; [|contradiction].
  apply C. exact E.
Qed.

End MatcherSound.

Ltac ascii_cases c :=
  let b0 := fresh in let b1 := fresh in let b2 := fresh in let b3 := fresh in
  let b4 := fresh in let b5 := fresh in let b6 := fresh in let b7 := fresh in
  destruct c as [b0 b1 b2 b3 b4 b5 b6 b7];
  destruct b0, b1, b2, b3, b4, b5, b6, b7.

Lemma set_matches_digit (x : ascii) :
  set_matches true is_digit x = true -> is_digit x = true.
Proof. ascii_cases x; vm_compute; intros H; try reflexivity; discriminate H. Qed.

Lemma char_matches_minus (x : ascii) :
  char_matches true "-"%char x = true -> x = "-"%char.
Proof. ascii_cases x; vm_compute; intros H; try reflexivity; discriminate H. Qed.

Lemma digit_head (c : ascii) (rest : list ascii) :
  is_digit c = true ->
  trimStart_chars (c :: rest) = c :: rest /\
  read_sign (c :: rest) = (false, c :: rest) /\
  starts_with (chars "Infinity") (c :: rest) = false.
Proof.
  intros H. ascii_cases c; try discriminate H; repeat split; reflexivity.
Qed.

Lemma digits_val_nonneg (ds : list ascii) (acc : Z) :
  (0 <= acc)%Z -> (0 <= digits_val acc ds)%Z.
Proof.
  revert acc. induction ds as [|d ds IH]; intros acc H; cbn [digits_val].
  - exact H.
  - apply IH. unfold digit_val. lia.
Qed.

Lemma dec_nonneg (m e : Z) : (0 <= m)%Z -> 0 <= dec m e.
Proof.
  intros H. unfold dec. apply Rmult_le_pos.
  - apply IZR_le. exact H.
  - left. apply powerRZ_lt. lra.
Qed.

Lemma read_unsigned (c : ascii) (rest : list ascii) :
  is_digit c = true ->
  exists m e, read_literal (c :: rest) = LitDec m e /\ (0 <= m)%Z.
Proof.
  intros H. destruct (@digit_head c rest H) as [Ht [Hs Hi]].
  unfold read_literal. rewrite Ht, Hs, Hi. simpl take_while. simpl drop_while.
  rewrite H.
  match goal with
  | |- context [let '(_, _) := ?X in _] => destruct X as [fp l3]
  end.
  eexists. eexists. split; [reflexivity|].
  apply digits_val_nonneg. lia.
Qed.

Lemma read_negative (d : ascii) (rest : list ascii) :
  is_digit d = true ->
  exists m e, read_literal ("-"%char :: d :: rest) = LitDec m e.
Proof.
  intros H. destruct (@digit_head d rest H) as [_ [_ Hi]].
  unfold read_literal.
  change (trimStart_chars ("-"%char :: d :: rest)) with ("-"%char :: d :: rest).
  change (read_sign ("-"%char :: d :: rest)) with (true, d :: rest).
  cbv beta iota. rewrite Hi. simpl take_while. simpl drop_while. rewrite H.
  match goal with
  | |- context [let '(_, _) := ?X in _] => destruct X as [fp l3]
  end.
  eexists. eexists. reflexivity.
Qed.

Lemma parseFloat_starts_digit (t : string) :
  starts_digit (chars t) = true -> nonneg (parseFloat t).
Proof.
  unfold parseFloat. destruct (chars t) as [|c rest]; [discriminate|].
  simpl. intros H. destruct (@read_unsigned c rest H) as [m [e [-> Hm]]].
  simpl. apply dec_nonneg. exact Hm.
Qed.

Lemma parseFloat_starts_number (t : string) :
  starts_number (chars t) = true -> parseFloat t <> NaN.
Proof.
  unfold parseFloat. destruct (chars t) as [|c rest]; [discriminate|].
  simpl. intros H. apply orb_true_iff in H. destruct H as [H|H].
  - destruct (@read_unsigned c rest H) as [m [e [-> _]]]. discriminate.
  - apply andb_true_iff in H. destruct H as [Hc Hd].
    apply Ascii.eqb_eq in Hc. subst c.
    destruct rest as [|d rest']; [discriminate|]. simpl in Hd.
    destruct (@read_negative d rest' Hd) as [m [e ->]]. discriminate.
Qed.

Lemma lang_unsigned_number (u : list ascii) :
  lang true unsigned_number u -> starts_digit u = true.
Proof.
  unfold unsigned_number, RPlus, digit. intros H.
  inversion H as [| | | |r1 r2 u1 v1 H1 H2| | | | | | |]; subst.
  inversion H1 as [| | | |r1 r2 u2 v2 H3 H4| | | | | | |]; subst.
  inversion H3 as [| | |p x Hx| | | | | | | |]; subst.
  simpl. apply set_matches_digit. exact Hx.
Qed.

Lemma lang_signed_number (u : list ascii) (r : regex) :
  (forall v, lang true r v -> starts_digit v = true) ->
  lang true (RSeq (ROpt minus) r) u -> starts_number u = true.
Proof.
  intros Hr H.
  inversion H as [| | | |r1 r2 u1 v1 H1 H2| | | | | | |]; subst.
  specialize (Hr _ H2).
  inversion H1 as [| | | | | | | | |r1|r1 u2 H3|]; subst.
  - simpl. destruct v1 as [|c rest]; [discriminate|]. simpl in *.
    rewrite Hr. reflexivity.
  - unfold minus in H3. inversion H3 as [| |c x Hx| | | | | | | | |]; subst.
    apply char_matches_minus in Hx. subst x. simpl.
    rewrite Hr. reflexivity.
Qed.

Lemma lang_digits_then (u : list ascii) (r : regex) :
  lang true (RSeq (RPlus digit) r) u -> starts_digit u = true.
Proof.
  unfold RPlus, digit. intros H.
  inversion H as [| | | |r1 r2 u1 v1 H1 H2| | | | | | |]; subst.
  inversion H1 as [| | | |r1 r2 u2 v2 H3 H4| | | | | | |]; subst.
  inversion H3 as [| | |p x Hx| | | | | | | |]; subst.
  simpl. apply set_matches_digit. exact Hx.
Qed.

Lemma filterRegex_groups : groups_ok true filter_group filterRegex.
Proof.
  unfold filterRegex. simpl. repeat split; try exact I.
  - intros u H. apply lang_unsigned_number. exact H.
  - intros u H. apply (@lang_signed_number u _ lang_unsigned_number H).
  - intros u H. apply lang_unsigned_number. exact H.
Qed.

Lemma preampRegex_groups : groups_ok true preamp_group preampRegex.
Proof.
  unfold preampRegex. simpl. repeat split; try exact I.
  intros u H.
  apply (@lang_signed_number u _ (fun v Hv => @lang_digits_then v _ Hv) H).
Qed.

Lemma filter_captures (s : string) (m : captures) :
  regex_match true filterRegex s = Some m ->
  nonneg (parseFloat (group 4 m)) /\
  parseFloat (group 5 m) <> NaN /\
  nonneg (parseFloat (group 6 m)).
Proof.
  intros H.
  assert (H4 : filter_group 4 (chars (group 4 m))).
  { apply (@regex_match_sound true filter_group filterRegex s m 4%nat
             filterRegex_groups); [vm_compute; tauto | exact H]. }
  assert (H5 : filter_group 5 (chars (group 5 m))).
  { apply (@regex_match_sound true filter_group filterRegex s m 5%nat
             filterRegex_groups); [vm_compute; tauto | exact H]. }
  assert (H6 : filter_group 6 (chars (group 6 m))).
  { apply (@regex_match_sound true filter_group filterRegex s m 6%nat
             filterRegex_groups); [vm_compute; tauto | exact H]. }
  split; [apply parseFloat_starts_digit; exact H4|].
  split; [apply parseFloat_starts_number; exact H5|].
  apply parseFloat_starts_digit; exact H6.
Qed.

Lemma preamp_captures (s : string) (m : captures) :
  regex_match true preampRegex s = Some m ->
  parseFloat (group 1 m) <> NaN.
Proof.
  intros H. apply parseFloat_starts_number.
  apply (@regex_match_sound true preamp_group preampRegex s m 1%nat
           preampRegex_groups); [vm_compute; tauto | exact H].
Qed.

Lemma written_band_clean (m : captures) (old : value) :
  nonneg (parseFloat (group 4 m)) ->
  parseFloat (group 5 m) <> NaN ->
  nonneg (parseFloat (group 6 m)) ->
  clean_band old -> clean_band (written_band m old).
Proof.
  intros H4 H5 H6 [i [f [g [qv [t [e [-> _]]]]]]].
  rewrite written_band_shape.
  do 6 eexists. split; [reflexivity|]. auto.
Qed.

Lemma clean_is_sound (v : value) : clean_band v -> sound_band v.
Proof.
  intros [i [f [g [qv [t [e [-> [Hf [Hg Hq]]]]]]]]].
  eexists. split; [reflexivity|]. simpl. auto.
Qed.

Lemma apply_filter_clean (m : captures) (bs : list value) :
  nonneg (parseFloat (group 4 m)) ->
  parseFloat (group 5 m) <> NaN ->
  nonneg (parseFloat (group 6 m)) ->
  Forall clean_band bs -> Forall clean_band (apply_filter m bs).
Proof.
  intros H4 H5 H6 Hc. unfold apply_filter.
  destruct (parseInt (group 1 m)) as [n|]; [|exact Hc].
  destruct (in_bounds (n - 1) bs) eqn:Hb; [|exact Hc].
  destruct (@in_bounds_nat (n - 1) bs Hb) as [H0 Hlt].
  rewrite nth_item_nth by exact H0.
  apply Forall_replace_nth; [exact Hc|].
  apply (@written_band_clean m _ H4 H5 H6).
  apply Forall_nth_value; assumption.
Qed.

Lemma text_step_clean (acc : text_acc) (line : string) :
  fst acc <> NaN -> Forall clean_band (snd acc) ->
  fst (text_step acc line) <> NaN /\
  Forall clean_band (snd (text_step acc line)).
Proof.
  intros Hg Hc. unfold text_step.
  destruct (String.eqb (trim line) ""); [split; assumption|].
  destruct (regex_match true preampRegex (trim line)) as [m|] eqn:Ep.
  { split; [|exact Hc]. apply (preamp_captures _ Ep). }
  destruct (regex_match true filterRegex (trim line)) as [m|] eqn:Ef;
    [|split; assumption].
  destruct (filter_captures _ Ef) as [H4 [H5 H6]].
  split; [exact Hg|]. apply apply_filter_clean; assumption.
Qed.

Lemma fold_text_step_clean (lines : list string) (acc : text_acc) :
  fst acc <> NaN -> Forall clean_band (snd acc) ->
  fst (fold_left text_step lines acc) <> NaN /\
  Forall clean_band (snd (fold_left text_step lines acc)).
Proof.
  revert acc. induction lines as [|l lines IH]; intros acc Hg Hc; simpl.
  - split; assumption.
  - destruct (@text_step_clean acc l Hg Hc) as [Hg' Hc']. apply IH; assumption.
Qed.

Lemma default_bands_clean (freqs : list num) (k : nat) :
  Forall nonneg freqs -> Forall clean_band (map_indexed k freqs).
Proof.
  intros H. revert k. induction H as [|f freqs Hf Hfs IH]; intros k; simpl;
    constructor.
  - do 6 eexists. split; [reflexivity|].
    split; [exact Hf|]. split; [discriminate|]. simpl. lra.
  - apply IH.
Qed.

Section TextNumbers.

Variable DEFAULT_FREQS : list num.

(** X26. The numbers of a text import are never NaN and, for freq and q,
    never negative.  With a default table of non-negative frequencies, a
    text import leaves a global gain that is not NaN and bands that read
    at the type [Band] with non-negative freq and q and a gain that is not
    NaN; a q of 0 is not excluded. *)
Theorem text_import_numbers_are_sound (content : string) (st : State) :
  Forall nonneg DEFAULT_FREQS ->
  startsWith (trim content) "{" = false ->
  snd (importProfile DEFAULT_FREQS content st) = Imported ->
  exists (g : num) (bs : list value),
    globalGainState (fst (importProfile DEFAULT_FREQS content st)) = VNum g /\
    g <> NaN /\
    eqState (fst (importProfile DEFAULT_FREQS content st)) = VArr bs /\
    Forall sound_band bs.
Proof.
  intros Hf Hj. unfold importProfile, detect. rewrite Hj.
  destruct (startsWith (trim content) "Preamp:" || includes content "Filter 1:");
    cbn [fst snd]; [|discriminate].
  intros _. rewrite parseTextProfile_fold. cbn.
  assert (H0 : fst (start_acc DEFAULT_FREQS) <> NaN) by discriminate.
  destruct (@fold_text_step_clean (split_lines content) (start_acc DEFAULT_FREQS)
              H0 (default_bands_clean 0 Hf)) as [Hg Hc].
  eexists. eexists. split; [reflexivity|]. split; [exact Hg|].
  split; [reflexivity|].
  eapply Forall_impl; [|exact Hc].
  intros v Hv. apply clean_is_sound. exact Hv.
Qed.

End TextNumbers.

Lemma text_import_numbers_are_sound_witness :
  exists (g : num) (bs : list value),
    globalGainState (fst (importProfile example_freqs zero_q_text
                            (initial_state example_freqs))) = VNum g /\
    g <> NaN /\
    eqState (fst (importProfile example_freqs zero_q_text
                    (initial_state example_freqs))) = VArr bs /\
    Forall sound_band bs.
Proof.
  apply (@text_import_numbers_are_sound example_freqs zero_q_text
           (initial_state example_freqs)).
  - unfold example_freqs. simpl map.
    repeat (apply Forall_cons; [simpl; lra|]). apply Forall_nil.
  - vm_compute. reflexivity.
  - vm_compute. reflexivity.
Defined.

(** ** The canvas: the curve and the handles *)

Lemma drawCurve_from_inside (fuel : nat) (coeffs : list Coeffs) (w : R)
    (height : num) :
  forall (ri : R), 0 <= ri ->
  forall x y, In (x, y) (drawCurve_from fuel (Fin ri) coeffs (Fin w) height) ->
    80 <= w /\ exists r, x = Fin r /\ 40 <= r <= w - 40.
Proof.
  induction fuel as [|fuel IH]; intros ri Hri x y Hin; simpl in Hin.
  - contradiction.
  - destruct (Rle_dec ri _) as [Hle|Hgt]; simpl in Hin;
      [|contradiction].
    destruct Hin as [Heq|Hin].
    + inversion Heq; subst. split; [lra|]. exists (40 + ri). split; [reflexivity|lra].
    + apply (IH (ri + 1) ltac:(lra) x y Hin).
Qed.

(** X27. The curve keeps to the plot area: on a canvas of finite width
    every vertex handed to [moveTo] or [lineTo] has its x coordinate
    between the left padding 40 and [width - 40], and a canvas narrower
    than 80 pixels gets no vertex at all. *)
Theorem drawCurve_stays_inside_padding (fuel : nat) (localBands : list Band)
    (w : R) (height x y : num) :
  In (x, y) (drawCurve fuel localBands (Fin w) height) ->
  80 <= w /\ exists r, x = Fin r /\ 40 <= r <= w - 40.
Proof.
  unfold drawCurve. apply drawCurve_from_inside. lra.
Qed.

Lemma drawCurve_stays_inside_padding_witness :
  80 <= 100 /\ exists r, Fin (40 + 0) = Fin r /\ 40 <= r <= 100 - 40.
Proof.
  apply (@drawCurve_stays_inside_padding 1 [] 100 (Fin 200) (Fin (40 + 0))
           (gainToY (getMagnitude (xToFreq (Fin (40 + 0)) (Fin 100)) []
                       default_sampleRate) (Fin 200))).
  unfold drawCurve, drawCurve_from, activeCoeffs, leb.
  cbn [map padding CONFIG JsNum.sub JsNum.add JsNum.neg].
  destruct (Rle_dec 0 _) as [_|Hn]; [left; reflexivity | exfalso; lra].
Defined.

Lemma ltb_irrefl (x : num) : ltb x x = false.
Proof.
  destruct x; try reflexivity. simpl.
  destruct (Rlt_dec r r) as [H|_]; [exfalso; lra | reflexivity].
Qed.

Lemma ltb_trans (x y z : num) :
  ltb x y = true -> ltb y z = true -> ltb x z = true.
Proof.
  destruct x as [| | |a], y as [| | |b], z as [| | |c]; simpl;
    try discriminate; try reflexivity.
  destruct (Rlt_dec a b), (Rlt_dec b c), (Rlt_dec a c);
    try discriminate; try reflexivity.
  exfalso; lra.
Qed.

Lemma ltb_20_1000 : ltb (Fin 20) (Fin 1000) = true.
Proof.
  simpl. destruct (Rlt_dec 20 1000) as [_|H]; [reflexivity | exfalso; lra].
Qed.

Section ClosestHandle.

Variables x y w h : num.

Lemma pick_step_inv (seen : list Band) (acc : num * num) (b : Band) :
  pick_inv x y w h seen acc ->
  pick_inv x y w h (seen ++ [b]) (pick_step x y w h acc b).
Proof.
  intros Hinv. unfold pick_step.
  destruct (ltb (handle_distance x y w h b) (Fin 20)) eqn:Hb.
  - destruct Hinv as [[-> Hall]|[b0 [Hin [-> [H0 Hmin]]]]]; cbn [snd].
    + rewrite (@ltb_trans _ _ _ Hb ltb_20_1000).
      right. exists b. split; [apply in_or_app; right; left; reflexivity|].
      split; [reflexivity|]. split; [exact Hb|].
      intros b' Hb'. apply in_app_or in Hb'. destruct Hb' as [Hb'|[<-|[]]].
      * destruct (ltb (handle_distance x y w h b') (handle_distance x y w h b))
          eqn:E; [|reflexivity].
        pose proof (Hall b' Hb') as Hf.
        rewrite (@ltb_trans _ _ _ E Hb) in Hf. discriminate Hf.
      * apply ltb_irrefl.
    + destruct (ltb (handle_distance x y w h b) (handle_distance x y w h b0))
        eqn:Hlt.
      * right. exists b. split; [apply in_or_app; right; left; reflexivity|].
        split; [reflexivity|]. split; [exact Hb|].
        intros b' Hb'. apply in_app_or in Hb'. destruct Hb' as [Hb'|[<-|[]]].
        -- destruct (ltb (handle_distance x y w h b') (handle_distance x y w h b))
             eqn:E; [|reflexivity].
           pose proof (@ltb_trans _ _ _ E Hlt) as Hc.
           rewrite (Hmin b' Hb') in Hc. discriminate Hc.
        -- apply ltb_irrefl.
      * right. exists b0. split; [apply in_or_app; left; exact Hin|].
        split; [reflexivity|]. split; [exact H0|].
        intros b' Hb'. apply in_app_or in Hb'. destruct Hb' as [Hb'|[<-|[]]].
        -- apply Hmin. exact Hb'.
        -- exact Hlt.
  - destruct Hinv as [[-> Hall]|[b0 [Hin [-> [H0 Hmin]]]]].
    + left. split; [reflexivity|].
      intros b' Hb'. apply in_app_or in Hb'. destruct Hb' as [Hb'|[<-|[]]].
      * apply Hall. exact Hb'.
      * exact Hb.
    + right. exists b0. split; [apply in_or_app; left; exact Hin|].
      split; [reflexivity|]. split; [exact H0|].
      intros b' Hb'. apply in_app_or in Hb'. destruct Hb' as [Hb'|[<-|[]]].
      * apply Hmin. exact Hb'.
      * destruct (ltb (handle_distance x y w h b) (handle_distance x y w h b0))
          eqn:E; [|reflexivity].
        rewrite (@ltb_trans _ _ _ E H0) in Hb. discriminate Hb.
Qed.

Lemma fold_pick_inv (rest seen : list Band) (acc : num * num) :
  pick_inv x y w h seen acc ->
  pick_inv x y w h (seen ++ rest) (fold_left (pick_step x y w h) rest acc).
Proof.
  revert seen acc. induction rest as [|b rest IH]; intros seen acc Hinv; simpl.
  - rewrite app_nil_r. exact Hinv.
  - replace (seen ++ b :: rest) with ((seen ++ [b]) ++ rest)
      by (rewrite <- app_assoc; reflexivity).
    apply IH. apply pick_step_inv. exact Hinv.
Qed.

(** X28. A mouse press grabs a nearest handle or none.  When no handle is
    nearer than 20 pixels to the pointer the closest index stays -1;
    otherwise it is the index of a band whose handle is nearer than 20
    pixels and than which no handle is strictly nearer. *)
Theorem mousedown_grabs_nearest_handle (localBands : list Band) :
  (closest_handle x y w h localBands = Fin (-1) /\
   forall b, In b localBands ->
     ltb (handle_distance x y w h b) (Fin 20) = false) \/
  (exists b, In b localBands /\
     closest_handle x y w h localBands = index b /\
     ltb (handle_distance x y w h b) (Fin 20) = true /\
     forall b', In b' localBands ->
       ltb (handle_distance x y w h b') (handle_distance x y w h b) = false).
Proof.
  unfold closest_handle.
  assert (H0 : pick_inv x y w h [] (Fin (-1), Fin 1000)).
  { left. split; [reflexivity|]. intros b []. }
  pose proof (@fold_pick_inv localBands [] _ H0) as H. cbn [app] in H.
  destruct H as [[-> Hall]|[b [Hin [-> Hrest]]]].
  - left. split; [reflexivity | exact Hall].
  - right. exists b. split; [exact Hin|]. split; [reflexivity | exact Hrest].
Qed.

End ClosestHandle.
